(** * Hermes-3 species evolution: density and parallel momentum

    A shallow embedding of [src/evolve_density.cxx] and
    [src/evolve_momentum.cxx]: the finite-volume parallel momentum flux
    [FV::Div_par_fvv], the low-density regularisation of
    [EvolveDensity::finally], and the [transform]/[finally] state exchange
    of the two components.

    Numbers.  [BoutReal] is C++ [double]; it is idealised here as the real
    numbers, so that the branch structure, the flux formulas and the
    conservation identities of the code can be stated exactly.  Rounding,
    NaN and infinities are outside the model.

    Fields.  A [Field3D] is its table of cell values, indexed by the three
    mesh indices [(i, j, k)] = (x, y, z); a [Field2D] is indexed by
    [(i, j)].  Index arithmetic is on [Z]; the model does not track the
    allocated extent of a field (the loops of the code stay inside the
    guard cells when the mesh has two y guard cells, as BOUT++ requires). *)

From Stdlib Require Import Reals Lra Lia ZArith List.
From stdpp Require Import gmap strings.

Local Open Scope R_scope.

(** ** Numbers and fields *)

Abbreviation BoutReal := R (only parsing).

Definition Field3D : Type := Z -> Z -> Z -> BoutReal.
Definition Field2D : Type := Z -> Z -> BoutReal.

(** [BOUTMAX(a, b)] is the macro [((a) > (b) ? (a) : (b))]. *)
Definition BOUTMAX (a b : BoutReal) : BoutReal :=
  if Rgt_dec a b then a else b.

(** [SQ(x)] squares its argument. *)
Definition SQ (x : BoutReal) : BoutReal := x * x.

Module F3.
(** Pointwise arithmetic of BOUT++ fields, as used by the two components. *)
Definition const (c : BoutReal) : Field3D := fun _ _ _ => c.
Definition add (a b : Field3D) : Field3D := fun i j k => a i j k + b i j k.
Definition sub (a b : Field3D) : Field3D := fun i j k => a i j k - b i j k.
Definition neg (a : Field3D) : Field3D := fun i j k => - a i j k.
Definition div (a b : Field3D) : Field3D := fun i j k => a i j k / b i j k.
Definition scale (c : BoutReal) (a : Field3D) : Field3D :=
  fun i j k => c * a i j k.
Definition rdiv (c : BoutReal) (a : Field3D) : Field3D :=
  fun i j k => c / a i j k.
Definition mul2 (a : Field2D) (b : Field3D) : Field3D :=
  fun i j k => a i j * b i j k.
Definition sqrt (a : Field3D) : Field3D := fun i j k => sqrt (a i j k).
Definition log (a : Field3D) : Field3D := fun i j k => ln (a i j k).
Definition exp (a : Field3D) : Field3D := fun i j k => exp (a i j k).
(** [zeroFrom(f)]: a field on the mesh of [f], all cells zero. *)
Definition zeroFrom (f : Field3D) : Field3D := const 0.
End F3.

Module F2.
Definition mul (a b : Field2D) : Field2D := fun i j => a i j * b i j.
Definition SQ (a : Field2D) : Field2D := fun i j => SQ (a i j).
End F2.

(** ** The helpers of the anonymous namespace of evolve_density.cxx *)

(** [floor(value, min)], on one cell. *)
Definition floor (value min : BoutReal) : BoutReal :=
  if Rlt_dec value min then min else value.

(** The body of the [BOUT_FOR] loop of [clamp], on one cell. *)
Definition clamp_cell (x lo hi : BoutReal) : BoutReal :=
  if Rlt_dec x lo then lo
  else if Rgt_dec x hi then hi
  else x.

(** [clamp(var, lo, hi, rgn = "RGN_ALL")]: every cell of the copy is
    clamped. *)
Definition clamp (var : Field3D) (lo hi : BoutReal) : Field3D :=
  fun i j k => clamp_cell (var i j k) lo hi.

(** The field argument of [FV::Div_par_K_Grad_par] in the low-density
    parallel diffusion term,
    [log(density_floor / clamp(N, 1e-6 * density_floor, density_floor))]. *)
Definition low_n_log (density_floor : BoutReal) (N : Field3D) : Field3D :=
  F3.log (F3.rdiv density_floor
            (clamp N (1e-6 * density_floor) density_floor)).

(** The same factor on one cell value [n]. *)
Definition low_n_factor (density_floor n : BoutReal) : BoutReal :=
  ln (density_floor / clamp_cell n (1e-6 * density_floor) density_floor).

(** ** Errors *)

(** BOUT++ reports every failure by throwing a [BoutException]; nothing in
    the two components catches one, so a throw ends the call. *)
Inductive BoutException : Type :=
| AssertionFailed (condition : string)
| OptionNotFound (key : string)
| OptionHasNoValue
| OptionWrongType.

Inductive Result (A : Type) : Type :=
| Ok (a : A)
| Err (e : BoutException).
Arguments Ok {A} a.
Arguments Err {A} e.

#[export] Instance Result_ret : MRet Result := fun A a => Ok a.
#[export] Instance Result_bind : MBind Result :=
  fun A B f m => match m with Ok a => f a | Err e => Err e end.

Definition is_Err {A} (r : Result A) : Prop :=
  match r with Err _ => True | Ok _ => False end.

(** ** Mesh, coordinates and stencils *)

(** The part of [Mesh] read by the flux operator. *)
Record Mesh : Type := {
  xstart : Z;  xend : Z;
  ystart : Z;  yend : Z;
  LocalNz : Z;
  firstY : Z -> bool;
  lastY : Z -> bool;
  periodicY : Z -> bool
}.

(** The part of [Coordinates] read by the two components. *)
Record Coordinates : Type := {
  J : Field2D;
  g_22 : Field2D;
  dy : Field2D;
  dz : Field2D
}.

(** [Stencil1D]: cell-centre values [c], [m], [p] and the reconstructed
    left and right face values [L], [R]. *)
Module Stencil1D.
Record t : Type := mk {
  c : BoutReal;  m : BoutReal;  p : BoutReal;
  L : BoutReal;  R : BoutReal
}.
(** A stencil whose centre values have been assigned.  The code leaves
    [L] and [R] unassigned until [cellboundary] writes them; they are
    zero here. *)
Definition centred (c m p : BoutReal) : t := mk c m p 0 0.
End Stencil1D.

(** The template parameter [CellEdges]: a function object whose call
    operator fills in [L] and [R] of the stencil it is given. *)
Class CellEdges : Type := cellboundary : Stencil1D.t -> Stencil1D.t.

(** The BOUT++ build and field library, as far as [Div_par_fvv] and the
    components use them.  [CHECK] is the compile-time check level (the one
    tested by [#if CHECK > 1] in evolve_density.cxx); [ASSERT1] is the
    level-1 assertion macro. *)
Class FieldLib : Type := {
  CHECK : Z;
  areFieldsCompatible : Field3D -> Field3D -> bool;
  toFieldAligned : Field3D -> string -> Field3D;
  fromFieldAligned : Field3D -> string -> Field3D;
  (** [mesh->communicate(f)]: [f] with its guard cells filled *)
  communicate : Field3D -> Field3D;
  (** the contents of a [Field3D] declared without an initialiser, as in
      [Field3D sound_speed;]: no data has been assigned to it *)
  Field3D_unassigned : Field3D
}.

(** [ASSERT1(condition)]: at check level 1 and above the condition is
    tested and a [BoutException] naming it is thrown when it does not
    hold; below level 1 the macro expands to nothing. *)
Definition ASSERT1 `{FieldLib} (condition : bool) (text : string) : Result unit :=
  if (1 <=? CHECK)%Z
  then if condition then Ok tt else Err (AssertionFailed text)
  else Ok tt.

(** [for (int x = lo; x <= hi; x++) body], threading the loop state. *)
Definition for_range {A : Type} (lo hi : Z) (body : Z -> A -> A) (a : A) : A :=
  fold_left (fun a x => body x a) (seqZ lo (hi - lo + 1)) a.

(** [result(i, j, k) += d] and [result(i, j, k) -= d]. *)
Definition same_cell (i j k i' j' k' : Z) : bool :=
  ((i =? i') && (j =? j') && (k =? k'))%Z.

Definition add_at (result : Field3D) (i j k : Z) (d : BoutReal) : Field3D :=
  fun i' j' k' =>
    if same_cell i j k i' j' k' then result i' j' k' + d else result i' j' k'.

Definition sub_at (result : Field3D) (i j k : Z) (d : BoutReal) : Field3D :=
  fun i' j' k' =>
    if same_cell i j k i' j' k' then result i' j' k' - d else result i' j' k'.

(** ** [FV::Div_par_fvv] *)

Module FV.
Section Div_par_fvv.

Context `{cellboundary_ : CellEdges} `{lib : FieldLib}.
(** [f_in.getMesh()] and [f_in.getCoordinates()] *)
Variable mesh : Mesh.
Variable coord : Coordinates.

(** First and last [j] of the inner loop for column [i]. *)
Definition ys (i : Z) : Z :=
  if negb (firstY mesh i) || periodicY mesh i
  then (ystart mesh - 1)%Z else ystart mesh.

Definition ye (i : Z) : Z :=
  if negb (lastY mesh i) || periodicY mesh i
  then (yend mesh + 1)%Z else yend mesh.

(** Factors which multiply fluxes: right cell boundaries ... *)
Definition common_factor_r (i j : Z) : BoutReal :=
  (J coord i j + J coord i (j + 1)%Z) /
  (sqrt (g_22 coord i j) + sqrt (g_22 coord i (j + 1)%Z)).

Definition flux_factor_rc (i j : Z) : BoutReal :=
  common_factor_r i j / (dy coord i j * J coord i j).

Definition flux_factor_rp (i j : Z) : BoutReal :=
  common_factor_r i j / (dy coord i (j + 1)%Z * J coord i (j + 1)%Z).

(** ... and left cell boundaries. *)
Definition common_factor_l (i j : Z) : BoutReal :=
  (J coord i j + J coord i (j - 1)%Z) /
  (sqrt (g_22 coord i j) + sqrt (g_22 coord i (j - 1)%Z)).

Definition flux_factor_lc (i j : Z) : BoutReal :=
  common_factor_l i j / (dy coord i j * J coord i j).

Definition flux_factor_lm (i j : Z) : BoutReal :=
  common_factor_l i j / (dy coord i (j - 1)%Z * J coord i (j - 1)%Z).

(** The stencil of [f] at a cell, after [cellboundary]. *)
Definition reconstruct (f : Field3D) (i j k : Z) : Stencil1D.t :=
  cellboundary (Stencil1D.centred (f i j k) (f i (j - 1)%Z k) (f i (j + 1)%Z k)).

(** The tests [mesh->lastY(i) && (j == mesh->yend) && !mesh->periodicY(i)]
    and [mesh->firstY(i) && (j == mesh->ystart) && !mesh->periodicY(i)]. *)
Definition last_point (i j : Z) : bool :=
  lastY mesh i && (j =? yend mesh)%Z && negb (periodicY mesh i).

Definition first_point (i j : Z) : bool :=
  firstY mesh i && (j =? ystart mesh)%Z && negb (periodicY mesh i).

(** The value of [flux] at the right boundary (y+1/2) of a cell. *)
Definition flux_right (fixflux : bool) (f v wave_speed : Field3D)
    (i j k : Z) : BoutReal :=
  let s := reconstruct f i j k in
  let sv := reconstruct v i j k in
  let vpar := 0.5 * (v i j k + v i (j + 1)%Z k) in
  if last_point i j then
    let bndryval := 0.5 * (Stencil1D.c s + Stencil1D.p s) in
    if fixflux then bndryval * vpar * vpar
    else Stencil1D.R s * vpar * Stencil1D.R sv
         + wave_speed i j k * (Stencil1D.R s * Stencil1D.R sv - bndryval * vpar)
  else
    let amax := BOUTMAX (wave_speed i j k) (wave_speed i (j + 1)%Z k) in
    if Rgt_dec vpar amax then Stencil1D.R s * vpar * Stencil1D.R sv
    else if Rlt_dec vpar (- amax) then 0
    else Stencil1D.R s * 0.5 * (vpar + amax) * Stencil1D.R sv.

(** The value of [flux] at the left boundary (y-1/2) of a cell. *)
Definition flux_left (fixflux : bool) (f v wave_speed : Field3D)
    (i j k : Z) : BoutReal :=
  let s := reconstruct f i j k in
  let sv := reconstruct v i j k in
  let vpar := 0.5 * (v i j k + v i (j - 1)%Z k) in
  if first_point i j then
    let bndryval := 0.5 * (Stencil1D.c s + Stencil1D.m s) in
    if fixflux then bndryval * vpar * vpar
    else Stencil1D.L s * vpar * Stencil1D.L sv
         - wave_speed i j k * (Stencil1D.L s * Stencil1D.L sv - bndryval * vpar)
  else
    let amax := BOUTMAX (wave_speed i j k) (wave_speed i (j - 1)%Z k) in
    if Rlt_dec vpar (- amax) then Stencil1D.L s * vpar * Stencil1D.L sv
    else if Rgt_dec vpar amax then 0
    else Stencil1D.L s * 0.5 * (vpar - amax) * Stencil1D.L sv.

(** The body of the innermost loop: the four updates of [result]. *)
Definition cell_body (fixflux : bool) (f v wave_speed : Field3D)
    (i j k : Z) (result : Field3D) : Field3D :=
  let flux := flux_right fixflux f v wave_speed i j k in
  let result := add_at result i j k (flux * flux_factor_rc i j) in
  let result := sub_at result i (j + 1)%Z k (flux * flux_factor_rp i j) in
  let flux := flux_left fixflux f v wave_speed i j k in
  let result := sub_at result i j k (flux * flux_factor_lc i j) in
  let result := add_at result i (j - 1)%Z k (flux * flux_factor_lm i j) in
  result.

(** The three nested loops over field-aligned inputs. *)
Definition flux_loops (fixflux : bool) (f v wave_speed : Field3D) : Field3D :=
  for_range (xstart mesh) (xend mesh) (fun i =>
    for_range (ys i) (ye i) (fun j =>
      for_range 0 (LocalNz mesh - 1)%Z (fun k =>
        cell_body fixflux f v wave_speed i j k)))
    (F3.zeroFrom f).

Definition Div_par_fvv (f_in v_in wave_speed_in : Field3D) (fixflux : bool)
    : Result Field3D :=
  _ ← ASSERT1 (areFieldsCompatible f_in v_in)
        "areFieldsCompatible(f_in, v_in)";
  _ ← ASSERT1 (areFieldsCompatible f_in wave_speed_in)
        "areFieldsCompatible(f_in, wave_speed_in)";
  let f := toFieldAligned f_in "RGN_NOX" in
  let v := toFieldAligned v_in "RGN_NOX" in
  let wave_speed := toFieldAligned wave_speed_in "RGN_NOX" in
  let result := flux_loops fixflux f v wave_speed in
  Ok (fromFieldAligned result "RGN_NOBNDRY").

End Div_par_fvv.
End FV.

(** The cells of the regions named in [Div_par_fvv]: ["RGN_NOX"] leaves
    out the x guard cells, ["RGN_NOBNDRY"] is the interior of the mesh. *)
Definition in_RGN_NOX (mesh : Mesh) (i : Z) : Prop :=
  (xstart mesh <= i <= xend mesh)%Z.

Definition in_RGN_NOBNDRY (mesh : Mesh) (i j k : Z) : Prop :=
  (xstart mesh <= i <= xend mesh)%Z /\
  (ystart mesh <= j <= yend mesh)%Z /\
  (0 <= k < LocalNz mesh)%Z.

(** ** Sums over a column

    The quantities in which conservation is stated: finite sums over a
    list of indices, and the sum of a field over the interior cells of one
    column [(i, k)], each cell weighted by its volume factor [J * dy]. *)

Definition sum_over (l : list Z) (g : Z -> BoutReal) : BoutReal :=
  foldr (fun x acc => g x + acc) 0 l.

Definition weighted_column_sum (mesh : Mesh) (coord : Coordinates)
    (r : Field3D) (i k : Z) : BoutReal :=
  sum_over (seqZ (ystart mesh) (yend mesh - ystart mesh + 1))
           (fun j => J coord i j * dy coord i j * r i j k).

(** [lo <= x <= hi], as a test. *)
Definition in_range (lo hi x : Z) : bool := ((lo <=? x) && (x <=? hi))%Z.

(** A term that is present only when a test holds. *)
Definition when (b : bool) (x : BoutReal) : BoutReal := if b then x else 0.

(** ** The state-exchange record *)

(** Modelled from the spec: the [Options] tree that carries the state, and
    the accessors [set]/[get] of the component header, are not part of the
    sources.  The spec describes the record as keyed by species name then
    field name, with type-checked retrieval, and [get] on a missing key
    failing loudly; optional entries are tested with [isSet] and optional
    sections with [isSection]. *)
Inductive OptionValue : Type :=
| VField3D (f : Field3D)
| VBoutReal (r : BoutReal).

(** Modelled from the spec: a node of the state record is either a value
    or a section of named children. *)
#[warnings="-register-all"]
Inductive Options : Type :=
| OptValue (v : OptionValue)
| OptSection (children : gmap string Options).

Module Opt.

(** Modelled from the spec: the named children of a node; a value has
    none. *)
Definition children (o : Options) : gmap string Options :=
  match o with
  | OptSection ch => ch
  | OptValue _ => ∅
  end.

(** Modelled from the spec: a node that holds neither a value nor
    children. *)
Definition fresh : Options := OptSection ∅.

(** Modelled from the spec: [o[key]] on a [const Options&]; reading a key
    that is missing fails loudly. *)
Definition at_const (o : Options) (key : string) : Result Options :=
  match children o !! key with
  | Some c => Ok c
  | None => Err (OptionNotFound key)
  end.

(** Modelled from the spec: [o[key]] on an [Options&], as [transform]
    uses it to publish; a missing child is created. *)
Definition at_mut (o : Options) (key : string) : Options :=
  default fresh (children o !! key).

(** Modelled from the spec: writing back through the reference returned
    by [o[key]]. *)
Definition put (o : Options) (key : string) (c : Options) : Options :=
  OptSection (<[key := c]> (children o)).

(** Modelled from the spec: whether a node holds a value. *)
Definition has_value (o : Options) : bool :=
  match o with
  | OptValue _ => true
  | OptSection _ => false
  end.

(** Modelled from the spec: [o.isSet(key)], the test for an optional
    entry. *)
Definition isSet (o : Options) (key : string) : bool :=
  match children o !! key with
  | Some c => has_value c
  | None => false
  end.

(** Modelled from the spec: [o.isSection(key)], the test for an optional
    section. *)
Definition isSection (o : Options) (key : string) : bool :=
  match children o !! key with
  | Some (OptSection _) => true
  | _ => false
  end.

End Opt.

(** Modelled from the spec: [get<Field3D>(option)], type-checked
    retrieval that fails on a node without a value. *)
Definition get_Field3D (o : Options) : Result Field3D :=
  match o with
  | OptValue (VField3D f) => Ok f
  | OptValue (VBoutReal _) => Err OptionWrongType
  | OptSection _ => Err OptionHasNoValue
  end.

(** Modelled from the spec: [get<BoutReal>(option)]. *)
Definition get_BoutReal (o : Options) : Result BoutReal :=
  match o with
  | OptValue (VBoutReal r) => Ok r
  | OptValue (VField3D _) => Err OptionWrongType
  | OptSection _ => Err OptionHasNoValue
  end.

(** Modelled from the spec: [set(o[key], value)] for a field. *)
Definition set_Field3D (o : Options) (key : string) (f : Field3D) : Options :=
  Opt.put o key (OptValue (VField3D f)).

(** Modelled from the spec: [set(o[key], value)] for a number. *)
Definition set_BoutReal (o : Options) (key : string) (r : BoutReal) : Options :=
  Opt.put o key (OptValue (VBoutReal r)).

(** [state["species"][name]] on a constant state. *)
Definition species_of (state : Options) (name : string) : Result Options :=
  all ← Opt.at_const state "species";
  Opt.at_const all name.

(** [get<Field3D>(o[key])] on a constant [o]. *)
Definition get_Field3D_at (o : Options) (key : string) : Result Field3D :=
  c ← Opt.at_const o key;
  get_Field3D c.

(** The test [state.isSection("fields") and state["fields"].isSet("phi")];
    the right operand is evaluated only when the left one holds. *)
Definition phi_is_set (state : Options) : Result bool :=
  if Opt.isSection state "fields"
  then fields ← Opt.at_const state "fields"; Ok (Opt.isSet fields "phi")
  else Ok false.

(** [get<Field3D>(state["fields"]["phi"])] *)
Definition get_phi (state : Options) : Result Field3D :=
  fields ← Opt.at_const state "fields";
  get_Field3D_at fields "phi".

(** The block headed [// Typical wave speed used for numerical diffusion],
    which is the same text in both components.  The declaration inside the
    first branch introduces a second variable named [sound_speed] whose
    scope is that branch; the outer variable, which is the one passed on,
    is assigned only in the [else] branch. *)
Definition typical_wave_speed `{FieldLib} (state species : Options)
    : Result Field3D :=
  let sound_speed := Field3D_unassigned in
  if Opt.isSet state "sound_speed" then
    inner_sound_speed ← get_Field3D_at state "sound_speed";
    Ok sound_speed
  else
    T ← get_Field3D_at species "temperature";
    let sound_speed := F3.sqrt T in
    Ok sound_speed.

(** What a component means by an optional entry: [Some] field when
    [o.isSet(key)], [None] when not. *)
Definition optional_field (o : Options) (key : string) : Result (option Field3D) :=
  if Opt.isSet o key
  then f ← get_Field3D_at o key; Ok (Some f)
  else Ok None.

(** The potential, when [fields.phi] is set. *)
Definition optional_phi (state : Options) : Result (option Field3D) :=
  with_phi ← phi_is_set state;
  match with_phi with
  | true => phi ← get_phi state; Ok (Some phi)
  | false => Ok None
  end.

(** Whether [state["species"][name]] exists and has [key] set. *)
Definition published (state : Options) (name key : string) : bool :=
  match species_of state name with
  | Ok species => Opt.isSet species key
  | Err _ => false
  end.

(** ** Differential operators and constants of the libraries *)

(** The operators of BOUT++ and of [div_ops.hxx] and the constants of
    [bout/constants.hxx] that the components call; their code is not part
    of the sources. *)
Class DiffOps : Type := {
  Div_n_bxGrad_f_B_XPPM : Field3D -> Field3D -> bool -> bool -> bool -> Field3D;
  (** [FV::Div_par(f, v, wave_speed)] *)
  Div_par : Field3D -> Field3D -> Field3D -> Field3D;
  (** [FV::Div_par_K_Grad_par(K, f)] *)
  Div_par_K_Grad_par : Field3D -> Field3D -> Field3D;
  Div_Perp_Lap_FV_Index : Field3D -> Field3D -> bool -> Field3D;
  D4DZ4 : Field3D -> Field3D;
  Grad_par : Field3D -> Field3D;
  SI_Me : BoutReal;
  SI_Mp : BoutReal
}.

(** A [bool] stored into a [BoutReal] member. *)
Definition bool_to_BoutReal (b : bool) : BoutReal := if b then 1 else 0.

(** ** The density component *)

Module EvolveDensity.

Record t : Type := mk {
  name : string;
  bndry_flux : bool;
  poloidal_flows : bool;
  density_floor : BoutReal;
  low_n_diffuse : bool;
  low_n_diffuse_perp : bool;
  hyper_z : BoutReal;
  evolve_log : bool;
  charge : BoutReal;
  AA : BoutReal;
  source : Field3D;
  N : Field3D;
  logN : Field3D;
  Sn : Field3D;
  (** the solver's slots [ddt(N)] and [ddt(logN)] *)
  ddt_N : Field3D;
  ddt_logN : Field3D
}.

Definition with_N (self : t) (N' : Field3D) : t :=
  mk (name self) (bndry_flux self) (poloidal_flows self) (density_floor self)
     (low_n_diffuse self) (low_n_diffuse_perp self) (hyper_z self)
     (evolve_log self) (charge self) (AA self) (source self)
     N' (logN self) (Sn self) (ddt_N self) (ddt_logN self).

Definition with_ddt (self : t) (N' Sn' ddt_N' ddt_logN' : Field3D) : t :=
  mk (name self) (bndry_flux self) (poloidal_flows self) (density_floor self)
     (low_n_diffuse self) (low_n_diffuse_perp self) (hyper_z self)
     (evolve_log self) (charge self) (AA self) (source self)
     N' (logN self) Sn' ddt_N' ddt_logN'.

Section Component.

Context `{lib : FieldLib} `{ops : DiffOps}.
(** [N.getCoordinates()] *)
Variable coord : Coordinates.

Definition transform (self : t) (state : Options) : t * Options :=
  let N := if evolve_log self then F3.exp (logN self) else N self in
  let N := communicate N in
  let all := Opt.at_mut state "species" in
  let species := Opt.at_mut all (name self) in
  let species := set_Field3D species "density" N in
  let species := set_BoutReal species "AA" (AA self) in
  let species :=
    if Req_dec_T (charge self) 0 then species
    else set_BoutReal species "charge" (charge self) in
  (with_N self N, Opt.put state "species" (Opt.put all (name self) species)).

(** The coefficient of the low-density parallel diffusion,
    [SQ(coord->dy) * coord->g_22 * log(density_floor / clamp(N, ...))]. *)
Definition low_n_coefficient (density_floor : BoutReal) (N : Field3D) : Field3D :=
  F3.mul2 (F2.mul (F2.SQ (dy coord)) (g_22 coord)) (low_n_log density_floor N).

(** The result of [#if CHECK > 1 bout::checkFinite(...)] is always a pass
    on real numbers and is left out. *)
Definition finally (self : t) (state : Options) : Result t :=
  species ← species_of state (name self);
  N ← get_Field3D_at species "density";
  with_phi ← phi_is_set state;
  ddt ← (if (with_phi : bool) then
            phi ← get_phi state;
            Ok (F3.neg (Div_n_bxGrad_f_B_XPPM N phi (bndry_flux self)
                          (poloidal_flows self) true))
          else Ok (F3.const 0));
  ddt ← (if Opt.isSet species "velocity" then
            V ← get_Field3D_at species "velocity";
            sound_speed ← typical_wave_speed state species;
            with_phi ← phi_is_set state;
            match with_phi with
            | true =>
                Ok (F3.sub ddt
                      (Div_par N V (F3.scale (sqrt (SI_Me / SI_Mp)) sound_speed)))
            | false =>
                Ok (F3.sub ddt (Div_par N V sound_speed))
            end
          else Ok ddt);
  let ddt :=
    if low_n_diffuse self
    then F3.add ddt
           (Div_par_K_Grad_par (low_n_coefficient (density_floor self) N) N)
    else ddt in
  let ddt :=
    if low_n_diffuse_perp self
    then F3.add ddt
           (Div_Perp_Lap_FV_Index
              (F3.rdiv (density_floor self)
                 (fun i j k => floor (N i j k) (1e-3 * density_floor self)))
              N (bndry_flux self))
    else ddt in
  let ddt :=
    if Rgt_dec (hyper_z self) 0
    then F3.sub ddt
           (F3.mul2 (fun i j => hyper_z self * SQ (SQ (dz coord i j))) (D4DZ4 N))
    else ddt in
  let Sn := source self in
  Sn ← (if Opt.isSet species "density_source" then
           extra ← get_Field3D_at species "density_source";
           Ok (F3.add Sn extra)
         else Ok Sn);
  let ddt := F3.add ddt Sn in
  let ddt_log := if evolve_log self then F3.div ddt N else ddt_logN self in
  Ok (with_ddt self N Sn ddt ddt_log).

End Component.
End EvolveDensity.

(** ** The momentum component *)

Module EvolveMomentum.

Record t : Type := mk {
  name : string;
  bndry_flux : bool;
  poloidal_flows : bool;
  NV : Field3D;
  (** the solver's slot [ddt(NV)] *)
  ddt_NV : Field3D
}.

Section Component.

Context `{limiter : CellEdges} `{lib : FieldLib} `{ops : DiffOps}.
Variable mesh : Mesh.
Variable coord : Coordinates.

Definition transform (self : t) (state : Options) : Result (t * Options) :=
  let NV := communicate (NV self) in
  let all := Opt.at_mut state "species" in
  let species := Opt.at_mut all (name self) in
  let species := set_Field3D species "momentum" NV in
  N ← get_Field3D (Opt.at_mut species "density");
  AA ← get_BoutReal (Opt.at_mut species "AA");
  let species := set_Field3D species "velocity" (F3.div NV (F3.scale AA N)) in
  Ok (mk (name self) (bndry_flux self) (poloidal_flows self) NV (ddt_NV self),
      Opt.put state "species" (Opt.put all (name self) species)).

Definition finally (self : t) (state : Options) : Result t :=
  species ← species_of state (name self);
  with_phi ← phi_is_set state;
  ddt ← (if (with_phi : bool) then
            phi ← get_phi state;
            Ok (F3.neg (Div_n_bxGrad_f_B_XPPM (NV self) phi (bndry_flux self)
                          (poloidal_flows self) true))
          else Ok (F3.const 0));
  N ← get_Field3D_at species "density";
  V ← get_Field3D_at species "velocity";
  sound_speed ← typical_wave_speed state species;
  advection ← FV.Div_par_fvv mesh coord N V sound_speed false;
  let ddt := F3.sub ddt advection in
  ddt ← (if Opt.isSet species "pressure" then
            P ← get_Field3D_at species "pressure";
            Ok (F3.sub ddt (Grad_par P))
          else Ok ddt);
  ddt ← (if Opt.isSet species "momentum_source" then
            S ← get_Field3D_at species "momentum_source";
            Ok (F3.add ddt S)
          else Ok ddt);
  Ok (mk (name self) (bndry_flux self) (poloidal_flows self) (NV self) ddt).

End Component.
End EvolveMomentum.

(** ** Construction *)

(** The collaborators of the constructors: the configuration provider,
    queried by section path, the initial-profile reader and the solver.
    Their code is not part of the sources; each query is a parameter.
    [option_bool path d] stands for [options[..].withDefault<bool>(d)],
    [option_real] and [option_field] for the same at the other types,
    [option_flag] for the conversion of an option to [bool] and
    [option_number] for its conversion to [BoutReal]. *)
Class Framework : Type := {
  Config : Type;
  option_bool : Config -> list string -> bool -> bool;
  option_real : Config -> list string -> BoutReal -> BoutReal;
  option_field : Config -> list string -> Field3D -> Field3D;
  option_flag : Config -> list string -> bool;
  option_number : Config -> list string -> BoutReal;
  (** [initial_profile(name, var)]: the value given to [var] *)
  initial_profile : string -> Field3D;
  (** [solver->add(var, name)]: the value [var] has after the call *)
  solver_add : string -> Field3D -> Field3D
}.

(** What a constructor asks of the solver, the restart file, the output
    file and the input options, in the order of the calls. *)
Inductive Event : Type :=
| SolverAdd (name : string)
| RestartAddOnce (name : string)
| DumpAddRepeat (name : string)
| InitialProfile (name : string)
| SetConditionallyUsed (name : string).

Module Construct.
Section Constructors.

Context `{lib : FieldLib} `{ops : DiffOps} `{framework : Framework}.

(** [EvolveDensity::EvolveDensity(name, alloptions, solver)].  Members
    that are fields start without data. *)
Definition EvolveDensity (name : string) (alloptions : Config)
    : EvolveDensity.t * list Event :=
  let N := Field3D_unassigned in
  let logN := Field3D_unassigned in
  let Sn := Field3D_unassigned in
  let bndry_flux := option_bool alloptions [name; "bndry_flux"] true in
  let poloidal_flows := option_bool alloptions [name; "poloidal_flows"] true in
  let density_floor := option_real alloptions [name; "density_floor"] 1e-5 in
  let low_n_diffuse := option_bool alloptions [name; "low_n_diffuse"] true in
  let low_n_diffuse_perp :=
    option_bool alloptions [name; "low_n_diffuse_perp"] false in
  let hyper_z :=
    bool_to_BoutReal (option_bool alloptions [name; "hyper_z"] false) in
  let evolve_log := option_bool alloptions [name; "evolve_log"] false in
  let '(N, logN, events) :=
    if evolve_log then
      let logN := solver_add ("logN" +:+ name) logN in
      let events := [SolverAdd ("logN" +:+ name);
                     RestartAddOnce ("N" +:+ name);
                     DumpAddRepeat ("N" +:+ name)] in
      if negb (option_flag alloptions ["hermes"; "restarting"]) then
        let N := initial_profile ("N" +:+ name) in
        let logN := F3.log N in
        (N, logN, events ++ [InitialProfile ("N" +:+ name)])
      else
        (N, logN, events ++ [SetConditionallyUsed ("N" +:+ name)])
    else
      let N := solver_add ("N" +:+ name) N in
      (N, logN, [SolverAdd ("N" +:+ name)]) in
  let charge := option_real alloptions [name; "charge"] (-1) in
  let AA := option_real alloptions [name; "AA"] (SI_Me / SI_Mp) in
  let '(Sn, events) :=
    if option_bool alloptions [name; "diagnose"] false then
      (F3.const 0,
       events ++ [DumpAddRepeat ("ddt(N" +:+ name +:+ ")");
                  DumpAddRepeat ("SN" +:+ name)])
    else (Sn, events) in
  let Nnorm := option_number alloptions ["units"; "inv_meters_cubed"] in
  let Omega_ci := 1 / option_number alloptions ["units"; "seconds"] in
  let source :=
    let configured :=
      option_field alloptions ["N" +:+ name; "source"] (F3.const 0) in
    fun i j k => configured i j k / (Nnorm * Omega_ci) in
  (EvolveDensity.mk name bndry_flux poloidal_flows density_floor
     low_n_diffuse low_n_diffuse_perp hyper_z evolve_log charge AA source
     N logN Sn Field3D_unassigned Field3D_unassigned,
   events).

(** [EvolveMomentum::EvolveMomentum(name, alloptions, solver)] *)
Definition EvolveMomentum (name : string) (alloptions : Config)
    : EvolveMomentum.t * list Event :=
  let NV := solver_add ("NV" +:+ name) Field3D_unassigned in
  let bndry_flux := option_bool alloptions [name; "bndry_flux"] true in
  let poloidal_flows := option_bool alloptions [name; "poloidal_flows"] true in
  (EvolveMomentum.mk name bndry_flux poloidal_flows NV Field3D_unassigned,
   [SolverAdd ("NV" +:+ name)]).

End Constructors.
End Construct.

(** ** Assumptions on the collaborators

    What the zero-flow property of [Div_par_fvv] needs from the limiter
    and from the field-aligned transforms. *)

(** The limiter reconstructs zero face values from an all-zero stencil. *)
Definition limiter_keeps_zero `{limiter : CellEdges} : Prop :=
  Stencil1D.L (cellboundary (Stencil1D.centred 0 0 0)) = 0 /\
  Stencil1D.R (cellboundary (Stencil1D.centred 0 0 0)) = 0.

(** The field-aligned transforms take the zero field to zero on the
    cells of their region. *)
Definition transforms_keep_zero `{lib : FieldLib} (mesh : Mesh) : Prop :=
  (forall g : Field3D, (forall i j k, g i j k = 0) ->
     forall i j k, in_RGN_NOX mesh i -> toFieldAligned g "RGN_NOX" i j k = 0) /\
  (forall g : Field3D, (forall i j k, g i j k = 0) ->
     forall i j k, in_RGN_NOBNDRY mesh i j k ->
       fromFieldAligned g "RGN_NOBNDRY" i j k = 0).

(** What one pass through the loop body at cell [(i, j, k)] adds to the
    volume-weighted sum over the interior cells of column [i0]: each of
    the four updates counts when the cell it writes is an interior one. *)
Definition body_share `{limiter : CellEdges} (mesh : Mesh) (coord : Coordinates)
    (i0 : Z) (fixflux : bool) (f v wave_speed : Field3D) (i j k : Z) : BoutReal :=
  let inside j := in_range (ystart mesh) (yend mesh) j in
  let FR := FV.flux_right mesh fixflux f v wave_speed i j k in
  let FL := FV.flux_left mesh fixflux f v wave_speed i j k in
  when (inside j)
       (J coord i0 j * dy coord i0 j * (FR * FV.flux_factor_rc coord i j))
  - when (inside (j + 1)%Z)
       (J coord i0 (j + 1)%Z * dy coord i0 (j + 1)%Z
        * (FR * FV.flux_factor_rp coord i j))
  - when (inside j)
       (J coord i0 j * dy coord i0 j * (FL * FV.flux_factor_lc coord i j))
  + when (inside (j - 1)%Z)
       (J coord i0 (j - 1)%Z * dy coord i0 (j - 1)%Z
        * (FL * FV.flux_factor_lm coord i j)).

(** What one pass through the loop body at cell [(i, j, k)] adds to the
    cell [(i, j0, k)] of [result]: the two updates of the cell itself when
    [j = j0], the update of the upper neighbour when [j + 1 = j0], the
    update of the lower neighbour when [j - 1 = j0]. *)
Definition point_share `{limiter : CellEdges} (mesh : Mesh) (coord : Coordinates)
    (fixflux : bool) (f v wave_speed : Field3D) (j0 : Z) (i j k : Z) : BoutReal :=
  let FR := FV.flux_right mesh fixflux f v wave_speed i j k in
  let FL := FV.flux_left mesh fixflux f v wave_speed i j k in
  when (j =? j0)%Z (FR * FV.flux_factor_rc coord i j)
  - when (j + 1 =? j0)%Z (FR * FV.flux_factor_rp coord i j)
  - when (j =? j0)%Z (FL * FV.flux_factor_lc coord i j)
  + when (j - 1 =? j0)%Z (FL * FV.flux_factor_lm coord i j).

(** The limiter returns the all-zero stencil on an all-zero stencil:
    centre values kept, face values zero. *)
Definition limiter_keeps_zero_stencil `{limiter : CellEdges} : Prop :=
  cellboundary (Stencil1D.centred 0 0 0) = Stencil1D.centred 0 0 0.

(** The test that column [i] ends at a physical boundary, as it appears
    in both loop-bound and face tests of [Div_par_fvv]. *)
Definition physical_first (mesh : Mesh) (i : Z) : bool :=
  firstY mesh i && negb (periodicY mesh i).

Definition physical_last (mesh : Mesh) (i : Z) : bool :=
  lastY mesh i && negb (periodicY mesh i).

(** The parallel flow as the density component reads it: when a velocity
    is set, the velocity and the wave speed of the block
    [// Typical wave speed used for numerical diffusion]; nothing when no
    velocity is set. *)
Definition optional_flow `{lib : FieldLib} (state species : Options)
    : Result (option (Field3D * Field3D)) :=
  if Opt.isSet species "velocity" then
    V ← get_Field3D_at species "velocity";
    sound_speed ← typical_wave_speed state species;
    Ok (Some (V, sound_speed))
  else Ok None.

(** ** Reflection of a column

    The same problem seen with the y axis reversed: row [j] becomes row
    [-j], first and last points change places, and a velocity changes
    sign. *)

Definition mirror (f : Field3D) : Field3D := fun i j k => f i (- j)%Z k.

Definition mirror_velocity (v : Field3D) : Field3D :=
  fun i j k => - v i (- j)%Z k.

Definition mirror_mesh (mesh : Mesh) : Mesh := {|
  xstart := xstart mesh;  xend := xend mesh;
  ystart := (- yend mesh)%Z;  yend := (- ystart mesh)%Z;
  LocalNz := LocalNz mesh;
  firstY := lastY mesh;
  lastY := firstY mesh;
  periodicY := periodicY mesh
|}.

Definition mirror_coord (coord : Coordinates) : Coordinates := {|
  J := fun i j => J coord i (- j)%Z;
  g_22 := fun i j => g_22 coord i (- j)%Z;
  dy := fun i j => dy coord i (- j)%Z;
  dz := fun i j => dz coord i (- j)%Z
|}.

(** The limiter treats both directions alike: exchanging the two
    neighbours of a stencil exchanges its face values, and changing the
    sign of a stencil changes the sign of its face values. *)
Definition limiter_symmetric `{limiter : CellEdges} : Prop :=
  forall c m p,
    let s := cellboundary (Stencil1D.centred c m p) in
    let swapped := cellboundary (Stencil1D.centred c p m) in
    let negated := cellboundary (Stencil1D.centred (- c) (- m) (- p)) in
    Stencil1D.c swapped = Stencil1D.c s /\
    Stencil1D.m swapped = Stencil1D.p s /\
    Stencil1D.p swapped = Stencil1D.m s /\
    Stencil1D.L swapped = Stencil1D.R s /\
    Stencil1D.R swapped = Stencil1D.L s /\
    Stencil1D.L negated = - Stencil1D.L s /\
    Stencil1D.R negated = - Stencil1D.R s.

(** The limiter commutes with scaling a stencil by a constant. *)
Definition limiter_homogeneous `{limiter : CellEdges} : Prop :=
  forall a c m p,
    let s := cellboundary (Stencil1D.centred c m p) in
    let scaled := cellboundary (Stencil1D.centred (a * c) (a * m) (a * p)) in
    Stencil1D.c scaled = a * Stencil1D.c s /\
    Stencil1D.m scaled = a * Stencil1D.m s /\
    Stencil1D.p scaled = a * Stencil1D.p s /\
    Stencil1D.L scaled = a * Stencil1D.L s /\
    Stencil1D.R scaled = a * Stencil1D.R s.

(** ** Sample instances

    Concrete collaborators on which the theorems below are exercised. *)

(** [SIGN(a)] of BOUT++'s utilities. *)
Definition SIGN (a : BoutReal) : BoutReal := if Rlt_dec a 0 then -1 else 1.

(** The default [CellEdges] argument of [Div_par_fvv], the monotonised
    central limiter [MC]: the slope is the [minmod] of twice the one-sided
    differences and the central difference. *)
Definition minmod (a b c : BoutReal) : BoutReal :=
  if Rle_dec (a * b) 0 then 0
  else if Rle_dec (a * c) 0 then 0
  else SIGN a * Rmin (Rabs a) (Rmin (Rabs b) (Rabs c)).

Definition MC : CellEdges := fun n =>
  let slope := minmod (2 * (Stencil1D.p n - Stencil1D.c n))
                      (0.5 * (Stencil1D.p n - Stencil1D.m n))
                      (2 * (Stencil1D.c n - Stencil1D.m n)) in
  Stencil1D.mk (Stencil1D.c n) (Stencil1D.m n) (Stencil1D.p n)
               (Stencil1D.c n - 0.5 * slope) (Stencil1D.c n + 0.5 * slope).

(** A build with assertions enabled, on a mesh without a parallel
    transform (the field-aligned transforms are the identity). *)
Definition checked_lib (compatible : Field3D -> Field3D -> bool) : FieldLib := {|
  CHECK := 1;
  areFieldsCompatible := compatible;
  toFieldAligned := fun f _ => f;
  fromFieldAligned := fun f _ => f;
  communicate := fun f => f;
  Field3D_unassigned := F3.const 0
|}.

(** The same with [CHECK = 0]. *)
Definition unchecked_lib (compatible : Field3D -> Field3D -> bool) : FieldLib := {|
  CHECK := 0;
  areFieldsCompatible := compatible;
  toFieldAligned := fun f _ => f;
  fromFieldAligned := fun f _ => f;
  communicate := fun f => f;
  Field3D_unassigned := F3.const 0
|}.

(** Operators that return their (first) field argument unchanged. *)
Definition sample_ops : DiffOps := {|
  Div_n_bxGrad_f_B_XPPM := fun n _ _ _ _ => n;
  Div_par := fun f _ _ => f;
  Div_par_K_Grad_par := fun _ f => f;
  Div_Perp_Lap_FV_Index := fun _ f _ => f;
  D4DZ4 := fun f => f;
  Grad_par := fun f => f;
  SI_Me := 1;
  SI_Mp := 1836
|}.

(** One column of three cells between two physical boundaries. *)
Definition sample_mesh : Mesh := {|
  xstart := 2;  xend := 2;
  ystart := 2;  yend := 4;
  LocalNz := 1;
  firstY := fun _ => true;
  lastY := fun _ => true;
  periodicY := fun _ => false
|}.

(** Unit metric. *)
Definition sample_coord : Coordinates := {|
  J := fun _ _ => 1;
  g_22 := fun _ _ => 1;
  dy := fun _ _ => 1;
  dz := fun _ _ => 1
|}.

(** An electron-like density component with every optional term switched
    off and a uniform source. *)
Definition sample_density : EvolveDensity.t := {|
  EvolveDensity.name := "e";
  EvolveDensity.bndry_flux := true;
  EvolveDensity.poloidal_flows := true;
  EvolveDensity.density_floor := 1e-5;
  EvolveDensity.low_n_diffuse := false;
  EvolveDensity.low_n_diffuse_perp := false;
  EvolveDensity.hyper_z := bool_to_BoutReal false;
  EvolveDensity.evolve_log := false;
  EvolveDensity.charge := -1;
  EvolveDensity.AA := 1 / 1836;
  EvolveDensity.source := F3.const 3;
  EvolveDensity.N := F3.const 1;
  EvolveDensity.logN := F3.const 0;
  EvolveDensity.Sn := F3.const 0;
  EvolveDensity.ddt_N := F3.const 0;
  EvolveDensity.ddt_logN := F3.const 0
|}.

Definition sample_momentum : EvolveMomentum.t := {|
  EvolveMomentum.name := "e";
  EvolveMomentum.bndry_flux := true;
  EvolveMomentum.poloidal_flows := true;
  EvolveMomentum.NV := F3.const 0;
  EvolveMomentum.ddt_NV := F3.const 0
|}.

(** A state whose only species ["e"] has the given entries, with the given
    top-level entries beside the species section. *)
Definition state_with (top : list (string * Options))
    (entries : list (string * Options)) : Options :=
  OptSection
    (<["species" := OptSection {["e" := OptSection (list_to_map entries)]}]>
       (list_to_map top)).

Definition field_entry (key : string) (f : Field3D) : string * Options :=
  (key, OptValue (VField3D f)).

(** A framework in which the configuration is the list of switches that
    are turned on, every other option has its default, the units are 1,
    the initial profile is uniformly 2 and the solver leaves a variable
    as it finds it. *)
Definition sample_framework : Framework := {|
  Config := list (list string);
  option_bool := fun cfg path d => if decide (path ∈ cfg) then true else d;
  option_real := fun _ _ d => d;
  option_field := fun _ _ d => d;
  option_flag := fun cfg path => if decide (path ∈ cfg) then true else false;
  option_number := fun _ _ => 1;
  initial_profile := fun _ => F3.const 2;
  solver_add := fun _ var => var
|}.

(** ** Properties of the clamp and of the logarithmic factor *)

Section Clamp.

Variables lo hi : BoutReal.
Hypothesis lo_le_hi : lo <= hi.

Lemma clamp_cell_bounds x : lo <= clamp_cell x lo hi <= hi.
Proof using lo_le_hi.
  unfold clamp_cell.
  destruct (Rlt_dec x lo); [lra|].
  destruct (Rgt_dec x hi); lra.
Qed.

Lemma clamp_cell_mono x y : x <= y -> clamp_cell x lo hi <= clamp_cell y lo hi.
Proof using lo_le_hi.
  intros Hxy. unfold clamp_cell.
  destruct (Rlt_dec x lo), (Rlt_dec y lo); try lra;
    destruct (Rgt_dec x hi), (Rgt_dec y hi); lra.
Qed.

Lemma clamp_cell_id x : lo <= x <= hi -> clamp_cell x lo hi = x.
Proof using Type.
  intros [H1 H2]. unfold clamp_cell.
  destruct (Rlt_dec x lo); [lra|].
  destruct (Rgt_dec x hi); lra.
Qed.

Lemma clamp_cell_below x : x <= lo -> clamp_cell x lo hi = lo.
Proof using lo_le_hi.
  intros H. unfold clamp_cell.
  destruct (Rlt_dec x lo); [reflexivity|].
  destruct (Rgt_dec x hi); lra.
Qed.

Lemma clamp_cell_above x : hi <= x -> clamp_cell x lo hi = hi.
Proof using lo_le_hi.
  intros H. unfold clamp_cell.
  destruct (Rlt_dec x lo); [lra|].
  destruct (Rgt_dec x hi); lra.
Qed.

End Clamp.

Lemma low_n_log_cell density_floor N i j k :
  low_n_log density_floor N i j k = low_n_factor density_floor (N i j k).
Proof. reflexivity. Qed.

Lemma ratio_bounds (d x : BoutReal) :
  0 < d -> 1e-6 * d <= x <= d -> 1 <= d / x <= 1e6.
Proof.
  intros Hd [Hlo Hhi].
  assert (Hx : 0 < x) by lra.
  split.
  - apply (Rmult_le_reg_r x); [assumption|].
    unfold Rdiv. rewrite Rmult_assoc, Rinv_l by lra. lra.
  - apply (Rmult_le_reg_r x); [assumption|].
    unfold Rdiv. rewrite Rmult_assoc, Rinv_l by lra. lra.
Qed.

Lemma ratio_antitone (d x y : BoutReal) :
  0 < d -> 0 < x -> x <= y -> d / y <= d / x.
Proof.
  intros Hd Hx Hxy. unfold Rdiv.
  apply Rmult_le_compat_l; [lra|].
  apply Rinv_le_contravar; assumption.
Qed.

Lemma ratio_strict (d x y : BoutReal) :
  0 < d -> 0 < x -> x < y -> d / y < d / x.
Proof.
  intros Hd Hx Hxy. unfold Rdiv.
  apply Rmult_lt_compat_l; [lra|].
  apply Rinv_lt_contravar; [nra|assumption].
Qed.

Lemma ln_le_mono (x y : BoutReal) : 0 < x -> x <= y -> ln x <= ln y.
Proof.
  intros Hx [Hlt | ->]; [left; apply ln_increasing; assumption | right; reflexivity].
Qed.

Lemma low_n_factor_saturated (d n : BoutReal) :
  0 < d -> n <= 1e-6 * d -> low_n_factor d n = ln 1e6.
Proof.
  intros Hd Hn. unfold low_n_factor.
  rewrite clamp_cell_below by lra.
  f_equal. field. lra.
Qed.

(** C4, as stated, fails where it asks the factor to keep growing
    strictly all the way to zero: below [1e-6 * density_floor] the clamp
    saturates.  With [density_floor = 1], the cell values [1e-8 < 1e-7]
    both lie strictly between 0 and the floor and give the same factor. *)
Lemma low_n_factor_not_strict_near_zero :
  0 < 1e-8 < 1e-7 /\ 1e-7 < 1 /\
  ~ (low_n_factor 1 1e-7 < low_n_factor 1 1e-8).
Proof.
  split; [lra|]. split; [lra|].
  rewrite !low_n_factor_saturated by lra. lra.
Qed.

(** C4 (amended).  For every [density_floor > 0] and every cell value [n]:
    the clamped value lies in [[1e-6 * density_floor, density_floor]]; the
    argument [density_floor / clamp(n, ...)] of the logarithm lies in
    [[1, 1e6]], so it is positive; the factor
    [log(density_floor / clamp(n, ...))] is non-increasing in [n]; it is
    strictly decreasing in [n] on [[1e-6 * density_floor, density_floor]]
    and constant, equal to [log(1e6)], for [n <= 1e-6 * density_floor]; it
    is 0 whenever [n >= density_floor]; and when [N] exceeds the floor in
    every cell the coefficient of the low-density parallel diffusion is
    the zero field. *)
Theorem low_n_factor_regularisation (density_floor n : BoutReal) :
  0 < density_floor ->
  let lo := 1e-6 * density_floor in
  let x := clamp_cell n lo density_floor in
  lo <= x <= density_floor /\
  1 <= density_floor / x <= 1e6 /\
  0 < density_floor / x /\
  (forall n', n <= n' ->
     low_n_factor density_floor n' <= low_n_factor density_floor n) /\
  (forall n', lo <= n -> n < n' -> n' <= density_floor ->
     low_n_factor density_floor n' < low_n_factor density_floor n) /\
  (n <= lo -> low_n_factor density_floor n = ln 1e6) /\
  (density_floor <= n -> low_n_factor density_floor n = 0) /\
  (forall coord N, (forall i j k, density_floor < N i j k) ->
     forall i j k,
       EvolveDensity.low_n_coefficient coord density_floor N i j k = 0).
Proof.
  intros Hd lo x.
  assert (Hlohi : lo <= density_floor) by (unfold lo; lra).
  assert (Hlo : 0 < lo) by (unfold lo; lra).
  assert (Hx : lo <= x <= density_floor) by (apply clamp_cell_bounds; exact Hlohi).
  assert (Hratio : 1 <= density_floor / x <= 1e6) by (apply ratio_bounds; assumption).
  assert (Hzero : forall y, density_floor <= y -> low_n_factor density_floor y = 0).
  { intros y Hy. unfold low_n_factor. fold lo.
    rewrite (clamp_cell_above lo density_floor Hlohi) by exact Hy.
    unfold Rdiv. rewrite Rinv_r by lra. apply ln_1. }
  split; [exact Hx|]. split; [exact Hratio|]. split; [lra|].
  split; [|split; [|split; [|split]]].
  - intros n' Hn. unfold low_n_factor. fold lo.
    pose proof (clamp_cell_bounds lo density_floor Hlohi n') as Hx'.
    pose proof (clamp_cell_mono lo density_floor Hlohi n n' Hn) as Hmono.
    apply ln_le_mono.
    + apply Rdiv_lt_0_compat; lra.
    + apply ratio_antitone; [lra | fold x; lra | exact Hmono].
  - intros n' Hn1 Hn2 Hn3. unfold low_n_factor. fold lo.
    rewrite (clamp_cell_id lo density_floor n) by lra.
    rewrite (clamp_cell_id lo density_floor n') by lra.
    apply ln_increasing.
    + apply Rdiv_lt_0_compat; lra.
    + apply ratio_strict; lra.
  - intros Hn. apply low_n_factor_saturated; assumption.
  - exact (Hzero n).
  - intros coord N HN i j k.
    unfold EvolveDensity.low_n_coefficient, F3.mul2.
    rewrite low_n_log_cell.
    rewrite Hzero by (left; apply HN).
    apply Rmult_0_r.
Qed.

(** The amended C4 at the default floor [1e-5] and the cell value
    [n = 1e-7], which lies between [1e-6 * density_floor] and the floor. *)
Lemma low_n_factor_regularisation_witness :
  0 < 1e-5 /\
  1 <= 1e-5 / clamp_cell 1e-7 (1e-6 * 1e-5) 1e-5 <= 1e6.
Proof.
  split; [lra|].
  apply (low_n_factor_regularisation 1e-5 1e-7). lra.
Defined.

(** ** The face fluxes of [Div_par_fvv] *)

Section FaceFluxes.

Context `{limiter : CellEdges}.
Variable mesh : Mesh.

Lemma last_point_true i j :
  lastY mesh i = true -> j = yend mesh -> periodicY mesh i = false ->
  FV.last_point mesh i j = true.
Proof using Type.
  intros H1 -> H3. unfold FV.last_point.
  rewrite H1, H3, Z.eqb_refl. reflexivity.
Qed.

Lemma last_point_false i j :
  ~ (lastY mesh i = true /\ j = yend mesh /\ periodicY mesh i = false) ->
  FV.last_point mesh i j = false.
Proof using Type.
  intros H. unfold FV.last_point.
  destruct (lastY mesh i); [|reflexivity].
  destruct (Z.eqb_spec j (yend mesh)); [|reflexivity].
  destruct (periodicY mesh i); [reflexivity|].
  exfalso. apply H. repeat split; assumption.
Qed.

Lemma first_point_true i j :
  firstY mesh i = true -> j = ystart mesh -> periodicY mesh i = false ->
  FV.first_point mesh i j = true.
Proof using Type.
  intros H1 -> H3. unfold FV.first_point.
  rewrite H1, H3, Z.eqb_refl. reflexivity.
Qed.

Lemma first_point_false i j :
  ~ (firstY mesh i = true /\ j = ystart mesh /\ periodicY mesh i = false) ->
  FV.first_point mesh i j = false.
Proof using Type.
  intros H. unfold FV.first_point.
  destruct (firstY mesh i); [|reflexivity].
  destruct (Z.eqb_spec j (ystart mesh)); [|reflexivity].
  destruct (periodicY mesh i); [reflexivity|].
  exfalso. apply H. repeat split; assumption.
Qed.

(** C1.  At a right face that is not the last point of a non-periodic
    domain, with [vpar] the mean of the two cell velocities and [amax]
    the larger of the two wave speeds: [vpar > amax] gives the upwind
    flux [s.R * vpar * sv.R]; [vpar < -amax] gives exactly 0 (the test
    comes second in the code, which makes no difference when [amax] is
    not negative); in every other case the flux is
    [s.R * 0.5 * (vpar + amax) * sv.R], and the marginal case
    [vpar = amax] of a non-negative wave speed is one of them.  The left
    face, away from the first point, mirrors this with [s.L], [sv.L] and
    the weight [0.5 * (vpar - amax)]. *)
Theorem interior_face_flux (fixflux : bool) (f v wave_speed : Field3D)
    (i j k : Z) :
  let s := FV.reconstruct f i j k in
  let sv := FV.reconstruct v i j k in
  (~ (lastY mesh i = true /\ j = yend mesh /\ periodicY mesh i = false) ->
   let vpar := 0.5 * (v i j k + v i (j + 1)%Z k) in
   let amax := BOUTMAX (wave_speed i j k) (wave_speed i (j + 1)%Z k) in
   let flux := FV.flux_right mesh fixflux f v wave_speed i j k in
   (vpar > amax -> flux = Stencil1D.R s * vpar * Stencil1D.R sv) /\
   (vpar < - amax -> 0 <= amax \/ ~ vpar > amax -> flux = 0) /\
   (~ vpar > amax -> ~ vpar < - amax ->
    flux = Stencil1D.R s * 0.5 * (vpar + amax) * Stencil1D.R sv) /\
   (vpar = amax -> 0 <= amax ->
    flux = Stencil1D.R s * 0.5 * (vpar + amax) * Stencil1D.R sv)) /\
  (~ (firstY mesh i = true /\ j = ystart mesh /\ periodicY mesh i = false) ->
   let vpar := 0.5 * (v i j k + v i (j - 1)%Z k) in
   let amax := BOUTMAX (wave_speed i j k) (wave_speed i (j - 1)%Z k) in
   let flux := FV.flux_left mesh fixflux f v wave_speed i j k in
   (vpar < - amax -> flux = Stencil1D.L s * vpar * Stencil1D.L sv) /\
   (vpar > amax -> 0 <= amax \/ ~ vpar < - amax -> flux = 0) /\
   (~ vpar < - amax -> ~ vpar > amax ->
    flux = Stencil1D.L s * 0.5 * (vpar - amax) * Stencil1D.L sv) /\
   (vpar = amax -> 0 <= amax ->
    flux = Stencil1D.L s * 0.5 * (vpar - amax) * Stencil1D.L sv)).
Proof using Type.
  intros s sv. split.
  - intros Hint vpar amax flux.
    unfold flux, FV.flux_right. rewrite (last_point_false _ _ Hint).
    fold s sv. cbv zeta. fold vpar amax.
    destruct (Rgt_dec vpar amax) as [Hgt | Hle];
      [|destruct (Rlt_dec vpar (- amax)) as [Hlt | Hge]].
    + repeat split; intros; try reflexivity; exfalso; lra.
    + repeat split; intros; try reflexivity; exfalso; lra.
    + repeat split; intros; try reflexivity; exfalso; lra.
  - intros Hint vpar amax flux.
    unfold flux, FV.flux_left. rewrite (first_point_false _ _ Hint).
    fold s sv. cbv zeta. fold vpar amax.
    destruct (Rlt_dec vpar (- amax)) as [Hlt | Hge];
      [|destruct (Rgt_dec vpar amax) as [Hgt | Hle]].
    + repeat split; intros; try reflexivity; exfalso; lra.
    + repeat split; intros; try reflexivity; exfalso; lra.
    + repeat split; intros; try reflexivity; exfalso; lra.
Qed.

(** C3.  At the last point of a non-periodic domain the wave-speed
    comparison is not made: with [bndryval = 0.5 * (s.c + s.p)] the right
    flux is [bndryval * vpar * vpar] when [fixflux] is set and
    [s.R * vpar * sv.R + wave_speed(i,j,k) * (s.R * sv.R - bndryval * vpar)]
    when it is not.  At the first point, with
    [bndryval = 0.5 * (s.c + s.m)], the left flux is
    [bndryval * vpar * vpar], respectively
    [s.L * vpar * sv.L - wave_speed(i,j,k) * (s.L * sv.L - bndryval * vpar)]. *)
Theorem boundary_face_flux (fixflux : bool) (f v wave_speed : Field3D)
    (i j k : Z) :
  let s := FV.reconstruct f i j k in
  let sv := FV.reconstruct v i j k in
  (lastY mesh i = true -> j = yend mesh -> periodicY mesh i = false ->
   let vpar := 0.5 * (v i j k + v i (j + 1)%Z k) in
   let bndryval := 0.5 * (Stencil1D.c s + Stencil1D.p s) in
   FV.flux_right mesh fixflux f v wave_speed i j k =
     if fixflux then bndryval * vpar * vpar
     else Stencil1D.R s * vpar * Stencil1D.R sv
          + wave_speed i j k
            * (Stencil1D.R s * Stencil1D.R sv - bndryval * vpar)) /\
  (firstY mesh i = true -> j = ystart mesh -> periodicY mesh i = false ->
   let vpar := 0.5 * (v i j k + v i (j - 1)%Z k) in
   let bndryval := 0.5 * (Stencil1D.c s + Stencil1D.m s) in
   FV.flux_left mesh fixflux f v wave_speed i j k =
     if fixflux then bndryval * vpar * vpar
     else Stencil1D.L s * vpar * Stencil1D.L sv
          - wave_speed i j k
            * (Stencil1D.L s * Stencil1D.L sv - bndryval * vpar)).
Proof using Type.
  intros s sv. split.
  - intros H1 H2 H3 vpar bndryval.
    unfold FV.flux_right. rewrite (last_point_true _ _ H1 H2 H3).
    reflexivity.
  - intros H1 H2 H3 vpar bndryval.
    unfold FV.flux_left. rewrite (first_point_true _ _ H1 H2 H3).
    reflexivity.
Qed.

End FaceFluxes.

(** The limiter [MC] on a uniform stencil, and [BOUTMAX] of equal values. *)
Lemma minmod_zero_l (b c : BoutReal) : minmod 0 b c = 0.
Proof.
  unfold minmod. destruct (Rle_dec (0 * b) 0) as [_ | H]; [reflexivity|].
  exfalso. apply H. lra.
Qed.

Lemma MC_uniform (x : BoutReal) :
  Stencil1D.L (@cellboundary MC (Stencil1D.centred x x x)) = x /\
  Stencil1D.R (@cellboundary MC (Stencil1D.centred x x x)) = x.
Proof.
  unfold cellboundary, MC, Stencil1D.centred. cbn [Stencil1D.L Stencil1D.R Stencil1D.c Stencil1D.m Stencil1D.p].
  replace (2 * (x - x)) with 0 by lra.
  rewrite minmod_zero_l. split; lra.
Qed.

Lemma BOUTMAX_same (a : BoutReal) : BOUTMAX a a = a.
Proof. unfold BOUTMAX. destruct (Rgt_dec a a); reflexivity. Qed.

(** C1 on the sample column: density, velocity and wave speed are all
    uniform and equal to 1, so that [vpar = amax] at the face between the
    cells [j = 3] and [j = 4]; the right flux is the blend
    [1 * 0.5 * (1 + 1) * 1] and the left flux is [1 * 0.5 * (1 - 1) * 1]. *)
Lemma interior_face_flux_witness :
  @FV.flux_right MC sample_mesh false (F3.const 1) (F3.const 1) (F3.const 1) 2 3 0 = 1 /\
  @FV.flux_left MC sample_mesh false (F3.const 1) (F3.const 1) (F3.const 1) 2 3 0 = 0.
Proof.
  destruct (@interior_face_flux MC sample_mesh false
              (F3.const 1) (F3.const 1) (F3.const 1) 2 3 0) as [HR HL].
  assert (Hr : ~ (lastY sample_mesh 2 = true /\ 3%Z = yend sample_mesh
                  /\ periodicY sample_mesh 2 = false))
    by (intros [_ [H _]]; discriminate H).
  assert (Hl : ~ (firstY sample_mesh 2 = true /\ 3%Z = ystart sample_mesh
                  /\ periodicY sample_mesh 2 = false))
    by (intros [_ [H _]]; discriminate H).
  destruct (HR Hr) as (_ & _ & _ & HR4).
  destruct (HL Hl) as (_ & _ & _ & HL4).
  unfold FV.reconstruct, F3.const in *.
  destruct (MC_uniform 1) as [EL ER].
  rewrite ?EL, ?ER, ?BOUTMAX_same in *.
  split.
  - rewrite HR4; lra.
  - rewrite HL4; lra.
Defined.

(** C3 on the sample column with [fixflux = false]: at the last point
    [j = 4] the right flux is [1 * 1 * 1 + 1 * (1 * 1 - 1 * 1)], at the
    first point [j = 2] the left flux is [1 * 1 * 1 - 1 * (1 * 1 - 1 * 1)]. *)
Lemma boundary_face_flux_witness :
  @FV.flux_right MC sample_mesh false (F3.const 1) (F3.const 1) (F3.const 1) 2 4 0 = 1 /\
  @FV.flux_left MC sample_mesh false (F3.const 1) (F3.const 1) (F3.const 1) 2 2 0 = 1.
Proof.
  destruct (MC_uniform 1) as [EL ER].
  split.
  - destruct (@boundary_face_flux MC sample_mesh false
                (F3.const 1) (F3.const 1) (F3.const 1) 2 4 0) as [HR _].
    rewrite HR by reflexivity.
    unfold FV.reconstruct, F3.const. rewrite ?EL, ?ER.
    unfold cellboundary, MC, Stencil1D.centred; cbn [Stencil1D.c Stencil1D.p]. lra.
  - destruct (@boundary_face_flux MC sample_mesh false
                (F3.const 1) (F3.const 1) (F3.const 1) 2 2 0) as [_ HL].
    rewrite HL by reflexivity.
    unfold FV.reconstruct, F3.const. rewrite ?EL, ?ER.
    unfold cellboundary, MC, Stencil1D.centred; cbn [Stencil1D.c Stencil1D.m]. lra.
Defined.

(** ** Loops *)

Lemma fold_left_invariant {A B : Type} (P : A -> Prop) (body : B -> A -> A)
    (l : list B) (a : A) :
  P a ->
  (forall x a', x ∈ l -> P a' -> P (body x a')) ->
  P (fold_left (fun a x => body x a) l a).
Proof.
  revert a. induction l as [|x l IH]; intros a Ha Hstep; [exact Ha|].
  cbn [fold_left]. apply IH.
  - apply Hstep; [left | exact Ha].
  - intros y a' Hy. apply Hstep. right. exact Hy.
Qed.

Lemma for_range_invariant {A : Type} (P : A -> Prop) (lo hi : Z)
    (body : Z -> A -> A) (a : A) :
  P a ->
  (forall x a', (lo <= x <= hi)%Z -> P a' -> P (body x a')) ->
  P (for_range lo hi body a).
Proof.
  intros Ha Hstep. unfold for_range.
  apply fold_left_invariant; [exact Ha|].
  intros x a' Hx. apply Hstep.
  apply elem_of_seqZ in Hx. lia.
Qed.

Lemma add_at_zero (r : Field3D) (i j k : Z) (d : BoutReal) :
  d = 0 -> (forall i' j' k', r i' j' k' = 0) ->
  forall i' j' k', add_at r i j k d i' j' k' = 0.
Proof.
  intros -> Hr i' j' k'. unfold add_at. rewrite Hr.
  destruct (same_cell i j k i' j' k'); lra.
Qed.

Lemma sub_at_zero (r : Field3D) (i j k : Z) (d : BoutReal) :
  d = 0 -> (forall i' j' k', r i' j' k' = 0) ->
  forall i' j' k', sub_at r i j k d i' j' k' = 0.
Proof.
  intros -> Hr i' j' k'. unfold sub_at. rewrite Hr.
  destruct (same_cell i j k i' j' k'); lra.
Qed.

(** ** No flow, no flux *)

Section ZeroVelocity.

Context `{limiter : CellEdges} `{lib : FieldLib}.
Variable mesh : Mesh.
Variable coord : Coordinates.

Lemma flux_right_zero_velocity fixflux (f v wave_speed : Field3D) i j k :
  limiter_keeps_zero -> (forall j' k', v i j' k' = 0) ->
  FV.flux_right mesh fixflux f v wave_speed i j k = 0.
Proof using Type.
  intros [_ HR] Hv. unfold FV.flux_right, FV.reconstruct.
  rewrite !Hv, HR.
  destruct (FV.last_point mesh i j); [destruct fixflux; ring|].
  destruct (Rgt_dec _ _); [ring|].
  destruct (Rlt_dec _ _); ring.
Qed.

Lemma flux_left_zero_velocity fixflux (f v wave_speed : Field3D) i j k :
  limiter_keeps_zero -> (forall j' k', v i j' k' = 0) ->
  FV.flux_left mesh fixflux f v wave_speed i j k = 0.
Proof using Type.
  intros [HL _] Hv. unfold FV.flux_left, FV.reconstruct.
  rewrite !Hv, HL.
  destruct (FV.first_point mesh i j); [destruct fixflux; ring|].
  destruct (Rlt_dec _ _); [ring|].
  destruct (Rgt_dec _ _); ring.
Qed.

Lemma flux_loops_zero_velocity fixflux (f v wave_speed : Field3D) :
  limiter_keeps_zero ->
  (forall i j k, in_RGN_NOX mesh i -> v i j k = 0) ->
  forall i j k, FV.flux_loops mesh coord fixflux f v wave_speed i j k = 0.
Proof using Type.
  intros Hlim Hv. unfold FV.flux_loops.
  apply (for_range_invariant (fun r : Field3D => forall i j k, r i j k = 0));
    [reflexivity|].
  intros i r Hi Hr.
  apply (for_range_invariant (fun r : Field3D => forall i j k, r i j k = 0));
    [exact Hr|].
  intros j r' _ Hr'.
  apply (for_range_invariant (fun r : Field3D => forall i j k, r i j k = 0));
    [exact Hr'|].
  intros k r'' _ Hr''. unfold FV.cell_body.
  assert (Hvi : forall j' k', v i j' k' = 0) by (intros; apply Hv; exact Hi).
  rewrite (flux_right_zero_velocity fixflux f v wave_speed i j k Hlim Hvi).
  rewrite (flux_left_zero_velocity fixflux f v wave_speed i j k Hlim Hvi).
  apply add_at_zero; [ring|].
  apply sub_at_zero; [ring|].
  apply sub_at_zero; [ring|].
  apply add_at_zero; [ring|].
  exact Hr''.
Qed.

(** C6.  When the velocity field is zero in every cell, [Div_par_fvv]
    returns a field that is exactly zero in every interior cell, for both
    values of [fixflux], whatever the advected field [f] (in particular a
    uniform one) and whatever the wave speed (in particular a non-negative
    one).  The collaborators are assumed to respect zero: the limiter on
    an all-zero stencil, the field-aligned transforms on the zero field;
    and the inputs pass the compatibility assertions when these are
    enabled. *)
Theorem Div_par_fvv_zero_velocity (fixflux : bool) (f v wave_speed : Field3D) :
  limiter_keeps_zero ->
  transforms_keep_zero mesh ->
  ((1 <= CHECK)%Z ->
   areFieldsCompatible f v = true /\ areFieldsCompatible f wave_speed = true) ->
  (forall i j k, v i j k = 0) ->
  exists result,
    FV.Div_par_fvv mesh coord f v wave_speed fixflux = Ok result /\
    forall i j k, in_RGN_NOBNDRY mesh i j k -> result i j k = 0.
Proof using Type.
  intros Hlim [Hto Hfrom] Hcompat Hv.
  eexists. split.
  - unfold FV.Div_par_fvv, ASSERT1.
    destruct (1 <=? CHECK)%Z eqn:Hcheck.
    + apply Z.leb_le in Hcheck. destruct (Hcompat Hcheck) as [-> ->].
      reflexivity.
    + reflexivity.
  - intros i j k Hin. apply Hfrom; [|exact Hin].
    apply flux_loops_zero_velocity; [exact Hlim|].
    intros i' j' k' Hi'. apply Hto; [exact Hv | exact Hi'].
Qed.

End ZeroVelocity.

Lemma MC_keeps_zero : @limiter_keeps_zero MC.
Proof. exact (MC_uniform 0). Qed.

(** C6 on the sample column: uniform density 1, velocity 0, wave speed 1,
    with the limiter [MC], assertions enabled and identity transforms. *)
Lemma Div_par_fvv_zero_velocity_witness :
  exists result,
    @FV.Div_par_fvv MC (checked_lib (fun _ _ => true)) sample_mesh sample_coord
      (F3.const 1) (F3.const 0) (F3.const 1) false = Ok result /\
    forall i j k, in_RGN_NOBNDRY sample_mesh i j k -> result i j k = 0.
Proof.
  apply (@Div_par_fvv_zero_velocity MC (checked_lib (fun _ _ => true))
           sample_mesh sample_coord false (F3.const 1) (F3.const 0) (F3.const 1)).
  - exact MC_keeps_zero.
  - split; intros g Hg i j k _; apply Hg.
  - intros _. split; reflexivity.
  - reflexivity.
Defined.

(** ** The compatibility assertions *)

Section Compatibility.

Context `{limiter : CellEdges} `{lib : FieldLib}.
Variable mesh : Mesh.
Variable coord : Coordinates.

(** C9 (amended).  In a build with [CHECK >= 1], [Div_par_fvv] fails with
    an assertion error, before touching any field, whenever [v_in] or
    [wave_speed_in] is not compatible with [f_in]; the failing assertion
    is the first of the two that does not hold.  In a build with
    [CHECK < 1] the assertions expand to nothing and the call returns the
    result of the flux loops whether or not the fields are compatible. *)
Theorem Div_par_fvv_compatibility (f_in v_in wave_speed_in : Field3D)
    (fixflux : bool) :
  ((1 <= CHECK)%Z ->
   (areFieldsCompatible f_in v_in = false ->
    FV.Div_par_fvv mesh coord f_in v_in wave_speed_in fixflux
    = Err (AssertionFailed "areFieldsCompatible(f_in, v_in)")) /\
   (areFieldsCompatible f_in v_in = true ->
    areFieldsCompatible f_in wave_speed_in = false ->
    FV.Div_par_fvv mesh coord f_in v_in wave_speed_in fixflux
    = Err (AssertionFailed "areFieldsCompatible(f_in, wave_speed_in)"))) /\
  ((CHECK < 1)%Z ->
   FV.Div_par_fvv mesh coord f_in v_in wave_speed_in fixflux
   = Ok (fromFieldAligned
           (FV.flux_loops mesh coord fixflux
              (toFieldAligned f_in "RGN_NOX")
              (toFieldAligned v_in "RGN_NOX")
              (toFieldAligned wave_speed_in "RGN_NOX"))
           "RGN_NOBNDRY")).
Proof using Type.
  unfold FV.Div_par_fvv, ASSERT1. split.
  - intros Hcheck. apply Z.leb_le in Hcheck. rewrite Hcheck. split.
    + intros ->. reflexivity.
    + intros -> ->. reflexivity.
  - intros Hcheck. apply Z.leb_gt in Hcheck. rewrite Hcheck. reflexivity.
Qed.

End Compatibility.

(** C9, as stated, fails in a build without assertions: with [CHECK = 0]
    and three fields none of which is compatible with another, the call
    on the sample column does not fail. *)
Lemma Div_par_fvv_unchecked_proceeds :
  @areFieldsCompatible (unchecked_lib (fun _ _ => false))
     (F3.const 1) (F3.const 1) = false /\
  ~ is_Err (@FV.Div_par_fvv MC (unchecked_lib (fun _ _ => false))
              sample_mesh sample_coord
              (F3.const 1) (F3.const 1) (F3.const 1) true).
Proof.
  split; [reflexivity|].
  unfold FV.Div_par_fvv, ASSERT1. cbn. intros [].
Qed.

(** The amended C9 on the sample column, with assertions enabled and no
    two fields compatible. *)
Lemma Div_par_fvv_compatibility_witness :
  @FV.Div_par_fvv MC (checked_lib (fun _ _ => false)) sample_mesh sample_coord
    (F3.const 1) (F3.const 1) (F3.const 1) true
  = Err (AssertionFailed "areFieldsCompatible(f_in, v_in)").
Proof.
  destruct (@Div_par_fvv_compatibility MC (checked_lib (fun _ _ => false))
              sample_mesh sample_coord
              (F3.const 1) (F3.const 1) (F3.const 1) true) as [Hchecked _].
  assert (Hlevel : (1 <= @CHECK (checked_lib (fun _ _ => false)))%Z)
    by (cbn; lia).
  destruct (Hchecked Hlevel) as [Hfirst _].
  apply Hfirst. reflexivity.
Defined.

(** ** Finite sums *)

Lemma sum_over_nil (g : Z -> BoutReal) : sum_over [] g = 0.
Proof. reflexivity. Qed.

Lemma sum_over_cons (x : Z) (l : list Z) (g : Z -> BoutReal) :
  sum_over (x :: l) g = g x + sum_over l g.
Proof. reflexivity. Qed.

Lemma sum_over_ext (l : list Z) (g h : Z -> BoutReal) :
  (forall x, x ∈ l -> g x = h x) -> sum_over l g = sum_over l h.
Proof.
  induction l as [|x l IH]; intros Hgh; [reflexivity|].
  rewrite !sum_over_cons, (Hgh x) by left. rewrite IH; [reflexivity|].
  intros y Hy. apply Hgh. right. exact Hy.
Qed.

Lemma sum_over_plus (l : list Z) (g h : Z -> BoutReal) :
  sum_over l (fun x => g x + h x) = sum_over l g + sum_over l h.
Proof.
  induction l as [|x l IH]; rewrite ?sum_over_nil, ?sum_over_cons;
    [lra | rewrite IH; lra].
Qed.

Lemma sum_over_minus (l : list Z) (g h : Z -> BoutReal) :
  sum_over l (fun x => g x - h x) = sum_over l g - sum_over l h.
Proof.
  induction l as [|x l IH]; rewrite ?sum_over_nil, ?sum_over_cons;
    [lra | rewrite IH; lra].
Qed.

Lemma sum_over_zero (l : list Z) : sum_over l (fun _ => 0) = 0.
Proof.
  induction l as [|x l IH]; rewrite ?sum_over_nil, ?sum_over_cons;
    [reflexivity | rewrite IH; lra].
Qed.

Lemma sum_over_when (l : list Z) (b : bool) (g : Z -> BoutReal) :
  sum_over l (fun x => when b (g x)) = when b (sum_over l g).
Proof. destruct b; unfold when; [reflexivity | apply sum_over_zero]. Qed.

Lemma sum_over_absent (l : list Z) (x0 : Z) (g : Z -> BoutReal) :
  x0 ∉ l -> sum_over l (fun x => when (x =? x0)%Z (g x)) = 0.
Proof.
  intros Hnot. rewrite <- (sum_over_zero l). apply sum_over_ext.
  intros x Hx. destruct (Z.eqb_spec x x0) as [-> | _]; [contradiction | reflexivity].
Qed.

Lemma sum_over_present (l : list Z) (x0 : Z) (g : Z -> BoutReal) :
  NoDup l -> x0 ∈ l -> sum_over l (fun x => when (x =? x0)%Z (g x)) = g x0.
Proof.
  induction 1 as [|x l Hx Hnd IH]; intros Hin; [inversion Hin|].
  rewrite sum_over_cons. apply elem_of_cons in Hin as [<- | Hin].
  - rewrite Z.eqb_refl, sum_over_absent by exact Hx. unfold when. lra.
  - destruct (Z.eqb_spec x x0) as [-> | _]; [contradiction|].
    rewrite IH by exact Hin. unfold when. lra.
Qed.

Lemma sum_over_range_single (lo hi x0 : Z) (g : Z -> BoutReal) :
  sum_over (seqZ lo (hi - lo + 1)) (fun x => when (x =? x0)%Z (g x))
  = when (in_range lo hi x0) (g x0).
Proof.
  unfold in_range.
  destruct (Z.leb_spec lo x0); [destruct (Z.leb_spec x0 hi)|]; cbn [andb when].
  - apply sum_over_present; [apply NoDup_seqZ | apply elem_of_seqZ; lia].
  - apply sum_over_absent. rewrite elem_of_seqZ. lia.
  - apply sum_over_absent. rewrite elem_of_seqZ. lia.
Qed.

Lemma when_and (a b : bool) (x : BoutReal) : when a (when b x) = when (a && b) x.
Proof. destruct a, b; reflexivity. Qed.

Lemma for_range_measure {A : Type} (M : A -> BoutReal) (lo hi : Z)
    (body : Z -> A -> A) (delta : Z -> BoutReal) (a : A) :
  (forall x a', (lo <= x <= hi)%Z -> M (body x a') = M a' + delta x) ->
  M (for_range lo hi body a) = M a + sum_over (seqZ lo (hi - lo + 1)) delta.
Proof.
  intros Hstep. unfold for_range.
  assert (Hl : forall x, x ∈ seqZ lo (hi - lo + 1) -> (lo <= x <= hi)%Z)
    by (intros x Hx; apply elem_of_seqZ in Hx; lia).
  revert a Hl. induction (seqZ lo (hi - lo + 1)) as [|x l IH]; intros a Hl.
  - rewrite sum_over_nil. cbn [fold_left]. lra.
  - cbn [fold_left]. rewrite IH by (intros y Hy; apply Hl; right; exact Hy).
    rewrite Hstep by (apply Hl; left). rewrite sum_over_cons. lra.
Qed.

(** ** Conservation *)

Lemma volume_factor_cancels (a b c x : BoutReal) :
  a * b <> 0 -> a * b * (x * (c / (b * a))) = x * c.
Proof.
  intros Hab.
  assert (a <> 0) by (intros ->; apply Hab; ring).
  assert (b <> 0) by (intros ->; apply Hab; ring).
  field. split; assumption.
Qed.

Section Conservation.

Context `{limiter : CellEdges}.
Variable mesh : Mesh.
Variable coord : Coordinates.

Lemma common_factor_shared i j :
  FV.common_factor_l coord i (j + 1)%Z = FV.common_factor_r coord i j /\
  FV.common_factor_r coord i (j - 1)%Z = FV.common_factor_l coord i j.
Proof using Type.
  unfold FV.common_factor_l, FV.common_factor_r.
  replace (j + 1 - 1)%Z with j by lia.
  replace (j - 1 + 1)%Z with j by lia.
  split; f_equal; apply Rplus_comm.
Qed.

(** The column and the plane in which the sum is taken. *)
Variables i0 k0 : Z.

Local Abbreviation W r := (weighted_column_sum mesh coord r i0 k0).
Local Abbreviation inside j := (in_range (ystart mesh) (yend mesh) j).

Lemma column_sum_add_at (r : Field3D) i j k d :
  W (add_at r i j k d)
  = W r + when ((i =? i0)%Z && (k =? k0)%Z && inside j)
               (J coord i0 j * dy coord i0 j * d).
Proof using Type.
  unfold weighted_column_sum.
  rewrite (sum_over_ext _ _
             (fun j' => J coord i0 j' * dy coord i0 j' * r i0 j' k0
                        + when (j' =? j)%Z
                            (when ((i =? i0)%Z && (k =? k0)%Z)
                                  (J coord i0 j' * dy coord i0 j' * d)))).
  - rewrite sum_over_plus, sum_over_range_single, when_and.
    f_equal. f_equal.
    destruct (inside j), (i =? i0)%Z, (k =? k0)%Z; reflexivity.
  - intros j' _. unfold add_at, same_cell, when.
    destruct (Z.eqb_spec i i0), (Z.eqb_spec j j'), (Z.eqb_spec k k0),
      (Z.eqb_spec j' j); cbn [andb]; try lra; lia.
Qed.

Lemma column_sum_sub_at (r : Field3D) i j k d :
  W (sub_at r i j k d)
  = W r - when ((i =? i0)%Z && (k =? k0)%Z && inside j)
               (J coord i0 j * dy coord i0 j * d).
Proof using Type.
  transitivity (W (add_at r i j k (- d))).
  - apply sum_over_ext. intros j' _. unfold add_at, sub_at.
    destruct (same_cell i j k i0 j' k0); lra.
  - rewrite column_sum_add_at. unfold when.
    destruct ((i =? i0)%Z && (k =? k0)%Z && inside j); lra.
Qed.

Lemma column_sum_cell_body fixflux (f v wave_speed r : Field3D) i j k :
  W (FV.cell_body mesh coord fixflux f v wave_speed i j k r)
  = W r + when ((i =? i0)%Z && (k =? k0)%Z)
               (body_share mesh coord i0 fixflux f v wave_speed i j k).
Proof using Type.
  unfold FV.cell_body.
  rewrite column_sum_add_at, column_sum_sub_at, column_sum_sub_at,
    column_sum_add_at.
  unfold body_share, when.
  destruct ((i =? i0)%Z && (k =? k0)%Z); cbn [andb]; [|lra].
  destruct (inside j), (inside (j + 1)%Z), (inside (j - 1)%Z); lra.
Qed.

Lemma column_sum_flux_loops fixflux (f v wave_speed : Field3D) :
  in_RGN_NOX mesh i0 -> (0 <= k0 < LocalNz mesh)%Z ->
  W (FV.flux_loops mesh coord fixflux f v wave_speed)
  = sum_over (seqZ (FV.ys mesh i0) (FV.ye mesh i0 - FV.ys mesh i0 + 1))
             (fun j => body_share mesh coord i0 fixflux f v wave_speed i0 j k0).
Proof using Type.
  intros Hi Hk. unfold FV.flux_loops.
  rewrite (for_range_measure (fun r => W r) _ _ _
             (fun i => when (i =? i0)%Z
                (sum_over (seqZ (FV.ys mesh i) (FV.ye mesh i - FV.ys mesh i + 1))
                   (fun j => body_share mesh coord i0 fixflux f v wave_speed i j k0)))).
  - rewrite sum_over_range_single.
    replace (in_range (xstart mesh) (xend mesh) i0) with true
      by (unfold in_range, in_RGN_NOX in *; symmetry;
          apply andb_true_intro; split; apply Z.leb_le; lia).
    unfold when, weighted_column_sum, F3.zeroFrom, F3.const.
    rewrite (sum_over_ext _ _ (fun _ => 0)) by (intros; ring).
    rewrite sum_over_zero. lra.
  - intros i r _.
    rewrite (for_range_measure (fun r => W r) _ _ _
               (fun j => when (i =? i0)%Z
                           (body_share mesh coord i0 fixflux f v wave_speed i j k0))).
    + rewrite sum_over_when. reflexivity.
    + intros j r' _.
      rewrite (for_range_measure (fun r => W r) _ _ _
                 (fun k => when (k =? k0)%Z
                    (when (i =? i0)%Z
                       (body_share mesh coord i0 fixflux f v wave_speed i j k)))).
      * rewrite sum_over_range_single.
        replace (in_range 0 (LocalNz mesh - 1) k0) with true
          by (unfold in_range; symmetry;
              apply andb_true_intro; split; apply Z.leb_le; lia).
        reflexivity.
      * intros k r'' _. rewrite column_sum_cell_body, when_and.
        f_equal. f_equal. apply andb_comm.
Qed.

End Conservation.

(** Settles every integer comparison in the goal from the hypotheses. *)
Ltac settle_tests :=
  repeat match goal with
    | |- context [(?a <=? ?b)%Z] => destruct (Z.leb_spec a b); try lia
    | |- context [(?a =? ?b)%Z] => destruct (Z.eqb_spec a b); try lia
    end.

Section Telescoping.

Context `{limiter : CellEdges}.
Variable mesh : Mesh.
Variable coord : Coordinates.
Variables i k : Z.
Hypothesis volume_nonzero : forall j, J coord i j * dy coord i j <> 0.
Hypothesis column_nonempty : (ystart mesh <= yend mesh)%Z.

Lemma loop_range_tests :
  in_range (FV.ys mesh i) (FV.ye mesh i) (yend mesh) = true /\
  in_range (FV.ys mesh i) (FV.ye mesh i) (ystart mesh) = true /\
  in_range (FV.ys mesh i) (FV.ye mesh i) (ystart mesh - 1)
    = negb (firstY mesh i) || periodicY mesh i /\
  in_range (FV.ys mesh i) (FV.ye mesh i) (yend mesh + 1)
    = negb (lastY mesh i) || periodicY mesh i.
Proof using column_nonempty.
  unfold FV.ys, FV.ye, in_range.
  destruct (negb (firstY mesh i) || periodicY mesh i),
    (negb (lastY mesh i) || periodicY mesh i);
    repeat split; settle_tests; reflexivity.
Qed.

Lemma body_share_faces fixflux (f v wave_speed : Field3D) j :
  body_share mesh coord i fixflux f v wave_speed i j k
  = when (j =? yend mesh)%Z
      (FV.flux_right mesh fixflux f v wave_speed i j k
       * FV.common_factor_r coord i j)
    - when (j =? ystart mesh - 1)%Z
        (FV.flux_right mesh fixflux f v wave_speed i j k
         * FV.common_factor_r coord i j)
    - when (j =? ystart mesh)%Z
        (FV.flux_left mesh fixflux f v wave_speed i j k
         * FV.common_factor_l coord i j)
    + when (j =? yend mesh + 1)%Z
        (FV.flux_left mesh fixflux f v wave_speed i j k
         * FV.common_factor_l coord i j).
Proof using volume_nonzero column_nonempty.
  unfold body_share, FV.flux_factor_rc, FV.flux_factor_rp,
    FV.flux_factor_lc, FV.flux_factor_lm.
  rewrite !volume_factor_cancels by apply volume_nonzero.
  unfold when, in_range. settle_tests; cbn [andb]; lra.
Qed.

(** C7.  Each face flux enters the two cells it separates with factors
    whose products with the cells' volume factors [J * dy] are the same
    [common_factor]: what the right flux of cell [j] adds to cell [j]
    and what it takes from cell [j + 1] are, volume-weighted, both
    [flux * common_factor], and likewise for the left flux and cell
    [j - 1].  Hence the volume-weighted sum of [result] over the interior
    cells of a column telescopes to the fluxes through the two end faces
    of the column: at a physical boundary these are the boundary fluxes
    of the last and first cells; at an end that is not a physical
    boundary the flux computed from the guard cell for the same face is
    added to them. *)
Theorem Div_par_fvv_conservation (fixflux : bool) (f v wave_speed : Field3D) :
  in_RGN_NOX mesh i ->
  (0 <= k < LocalNz mesh)%Z ->
  (forall j,
     let flux := FV.flux_right mesh fixflux f v wave_speed i j k in
     flux * FV.flux_factor_rc coord i j * (J coord i j * dy coord i j)
       = flux * FV.common_factor_r coord i j /\
     flux * FV.flux_factor_rp coord i j
       * (J coord i (j + 1)%Z * dy coord i (j + 1)%Z)
       = flux * FV.common_factor_r coord i j) /\
  (forall j,
     let flux := FV.flux_left mesh fixflux f v wave_speed i j k in
     flux * FV.flux_factor_lc coord i j * (J coord i j * dy coord i j)
       = flux * FV.common_factor_l coord i j /\
     flux * FV.flux_factor_lm coord i j
       * (J coord i (j - 1)%Z * dy coord i (j - 1)%Z)
       = flux * FV.common_factor_l coord i j) /\
  weighted_column_sum mesh coord
    (FV.flux_loops mesh coord fixflux f v wave_speed) i k
  = FV.common_factor_r coord i (yend mesh)
    * (FV.flux_right mesh fixflux f v wave_speed i (yend mesh) k
       + (if negb (lastY mesh i) || periodicY mesh i
          then FV.flux_left mesh fixflux f v wave_speed i (yend mesh + 1) k
          else 0))
    - FV.common_factor_l coord i (ystart mesh)
      * (FV.flux_left mesh fixflux f v wave_speed i (ystart mesh) k
         + (if negb (firstY mesh i) || periodicY mesh i
            then FV.flux_right mesh fixflux f v wave_speed i (ystart mesh - 1) k
            else 0)).
Proof using volume_nonzero column_nonempty.
  intros Hi Hk. split; [|split].
  - intros j flux. unfold FV.flux_factor_rc, FV.flux_factor_rp. split.
    + transitivity (J coord i j * dy coord i j
                    * (flux * (FV.common_factor_r coord i j
                               / (dy coord i j * J coord i j)))); [ring|].
      apply volume_factor_cancels, volume_nonzero.
    + transitivity (J coord i (j + 1)%Z * dy coord i (j + 1)%Z
                    * (flux * (FV.common_factor_r coord i j
                               / (dy coord i (j + 1)%Z * J coord i (j + 1)%Z))));
        [ring|].
      apply volume_factor_cancels, volume_nonzero.
  - intros j flux. unfold FV.flux_factor_lc, FV.flux_factor_lm. split.
    + transitivity (J coord i j * dy coord i j
                    * (flux * (FV.common_factor_l coord i j
                               / (dy coord i j * J coord i j)))); [ring|].
      apply volume_factor_cancels, volume_nonzero.
    + transitivity (J coord i (j - 1)%Z * dy coord i (j - 1)%Z
                    * (flux * (FV.common_factor_l coord i j
                               / (dy coord i (j - 1)%Z * J coord i (j - 1)%Z))));
        [ring|].
      apply volume_factor_cancels, volume_nonzero.
  - rewrite column_sum_flux_loops by assumption.
    rewrite (sum_over_ext _ _ _ (fun j _ => body_share_faces fixflux f v wave_speed j)).
    rewrite sum_over_plus, !sum_over_minus, !sum_over_range_single.
    destruct loop_range_tests as (-> & -> & -> & ->).
    destruct (common_factor_shared coord i (yend mesh)) as [-> _].
    destruct (common_factor_shared coord i (ystart mesh)) as [_ ->].
    unfold when.
    destruct (negb (lastY mesh i) || periodicY mesh i),
      (negb (firstY mesh i) || periodicY mesh i); ring.
Qed.

End Telescoping.

(** On the sample column with uniform unit fields, the flux through the
    last face and the flux through the first face are both 1, and the
    metric factors are 1. *)
Lemma sample_end_fluxes :
  @FV.flux_right MC sample_mesh false (F3.const 1) (F3.const 1) (F3.const 1) 2 4 0 = 1 /\
  @FV.flux_left MC sample_mesh false (F3.const 1) (F3.const 1) (F3.const 1) 2 2 0 = 1.
Proof.
  destruct (MC_uniform 1) as [EL ER].
  unfold FV.flux_right, FV.flux_left, FV.reconstruct, F3.const.
  cbn [FV.last_point FV.first_point sample_mesh lastY firstY periodicY
       yend ystart Z.eqb Pos.eqb andb negb].
  rewrite EL, ER.
  unfold cellboundary, MC, Stencil1D.centred.
  cbn [Stencil1D.c Stencil1D.m Stencil1D.p]. split; lra.
Qed.

Lemma sample_common_factor i j :
  FV.common_factor_r sample_coord i j = 1 /\
  FV.common_factor_l sample_coord i j = 1.
Proof.
  unfold FV.common_factor_r, FV.common_factor_l.
  cbn [sample_coord J g_22]. rewrite sqrt_1. split; lra.
Qed.

(** C7 on the sample column: with uniform unit density, velocity and wave
    speed the flux entering through the first face equals the flux leaving
    through the last face, and the volume-weighted sum of the result over
    the three interior cells is zero. *)
Lemma Div_par_fvv_conservation_witness :
  weighted_column_sum sample_mesh sample_coord
    (@FV.flux_loops MC sample_mesh sample_coord false
       (F3.const 1) (F3.const 1) (F3.const 1)) 2 0 = 0.
Proof.
  assert (Hvol : forall j, J sample_coord 2%Z j * dy sample_coord 2%Z j <> 0)
    by (intros j; cbn; lra).
  assert (Hcol : (ystart sample_mesh <= yend sample_mesh)%Z) by (cbn; lia).
  assert (Hi : in_RGN_NOX sample_mesh 2) by (unfold in_RGN_NOX; cbn; lia).
  assert (Hk : (0 <= 0 < LocalNz sample_mesh)%Z) by (cbn; lia).
  destruct (@Div_par_fvv_conservation MC sample_mesh sample_coord 2 0
              Hvol Hcol false (F3.const 1) (F3.const 1) (F3.const 1) Hi Hk)
    as (_ & _ & Hsum).
  rewrite Hsum.
  cbn [sample_mesh lastY firstY periodicY yend ystart negb orb].
  destruct sample_end_fluxes as [-> ->].
  destruct (sample_common_factor 2 4) as [-> _].
  destruct (sample_common_factor 2 2) as [_ ->].
  lra.
Defined.

(** ** Reading the state *)

Lemma bind_Ok {A B : Type} (f : A -> Result B) (a : A) : (Ok a ≫= f) = f a.
Proof. reflexivity. Qed.

Lemma bind_Err {A B : Type} (f : A -> Result B) (e : BoutException) :
  (Err e ≫= f) = Err e.
Proof. reflexivity. Qed.

(** Runs the binds whose left operand has become a value. *)
Ltac run_binds := repeat (progress (rewrite ?bind_Ok, ?bind_Err; cbn beta iota)).

Lemma is_Err_bind {A B : Type} (f : A -> Result B) (m : Result A) :
  is_Err m -> is_Err (m ≫= f).
Proof. destruct m; [contradiction | intros _; exact I]. Qed.

Lemma get_unset_const (o : Options) (key : string) :
  Opt.isSet o key = false -> is_Err (get_Field3D_at o key).
Proof.
  unfold Opt.isSet, get_Field3D_at, Opt.at_const.
  destruct (Opt.children o !! key) as [[v|ch]|]; cbn; try discriminate;
    intros _; exact I.
Qed.

Lemma get_unset_mut (o : Options) (key : string) :
  Opt.isSet o key = false ->
  is_Err (get_Field3D (Opt.at_mut o key)) /\
  is_Err (get_BoutReal (Opt.at_mut o key)).
Proof.
  unfold Opt.isSet, Opt.at_mut.
  destruct (Opt.children o !! key) as [[v|ch]|]; cbn; try discriminate;
    intros _; split; exact I.
Qed.

Lemma isSet_put_other (o c : Options) (key key' : string) :
  key <> key' -> Opt.isSet (Opt.put o key c) key' = Opt.isSet o key'.
Proof.
  intros Hne. unfold Opt.isSet, Opt.put. cbn [Opt.children].
  rewrite lookup_insert_ne by exact Hne. reflexivity.
Qed.

Lemma at_mut_put_other (o c : Options) (key key' : string) :
  key <> key' -> Opt.at_mut (Opt.put o key c) key' = Opt.at_mut o key'.
Proof.
  intros Hne. unfold Opt.at_mut, Opt.put. cbn [Opt.children].
  rewrite lookup_insert_ne by exact Hne. reflexivity.
Qed.

(** ** Properties of the density component *)

Section Density.

Context `{lib : FieldLib} `{ops : DiffOps}.
Variable coord : Coordinates.

(** C5.  With the low-density diffusion terms, the hyperdiffusion and the
    logarithmic mode switched off, on a state that publishes the density
    but no velocity, no potential and no density source, [finally]
    completes and [ddt(N)] is the configured [source] in every cell.  (A
    pressure entry is never read by this component, so whether one is
    published makes no difference.) *)
Theorem finally_source_only (self : EvolveDensity.t) (state species : Options)
    (n : Field3D) :
  EvolveDensity.low_n_diffuse self = false ->
  EvolveDensity.low_n_diffuse_perp self = false ->
  EvolveDensity.hyper_z self = bool_to_BoutReal false ->
  EvolveDensity.evolve_log self = false ->
  species_of state (EvolveDensity.name self) = Ok species ->
  get_Field3D_at species "density" = Ok n ->
  Opt.isSet species "velocity" = false ->
  phi_is_set state = Ok false ->
  Opt.isSet species "density_source" = false ->
  exists self',
    EvolveDensity.finally coord self state = Ok self' /\
    forall i j k,
      EvolveDensity.ddt_N self' i j k = EvolveDensity.source self i j k.
Proof using Type.
  intros Hpar Hperp Hz Hlog Hsp Hn Hv Hphi Hsrc.
  unfold EvolveDensity.finally.
  rewrite Hsp, bind_Ok, Hn, bind_Ok, Hphi, bind_Ok. cbn beta iota.
  rewrite bind_Ok, Hv, bind_Ok, Hpar, Hperp, Hz, Hsrc, bind_Ok.
  unfold bool_to_BoutReal.
  destruct (Rgt_dec 0 0) as [Hgt | _]; [exfalso; lra|].
  eexists. split; [reflexivity|].
  intros i j k. cbn [EvolveDensity.ddt_N EvolveDensity.with_ddt].
  unfold F3.add, F3.const. lra.
Qed.

End Density.

(** C5 on a state that publishes only the density of species ["e"]: the
    derivative is the uniform source 3 of the sample component. *)
Lemma finally_source_only_witness :
  exists self',
    @EvolveDensity.finally (checked_lib (fun _ _ => true)) sample_ops
      sample_coord sample_density
      (state_with [] [field_entry "density" (F3.const 2)]) = Ok self' /\
    forall i j k, EvolveDensity.ddt_N self' i j k = 3.
Proof.
  apply (@finally_source_only (checked_lib (fun _ _ => true)) sample_ops
           sample_coord sample_density
           (state_with [] [field_entry "density" (F3.const 2)])
           (OptSection (list_to_map [field_entry "density" (F3.const 2)]))
           (F3.const 2));
    reflexivity.
Defined.

Lemma optional_field_inv (o : Options) (key : string) (entry : option Field3D) :
  optional_field o key = Ok entry ->
  (Opt.isSet o key = true /\
   exists f, entry = Some f /\ get_Field3D_at o key = Ok f) \/
  (Opt.isSet o key = false /\ entry = None).
Proof.
  unfold optional_field. destruct (Opt.isSet o key).
  - destruct (get_Field3D_at o key) as [f|e]; cbn; [|discriminate].
    intros [= <-]. left. split; [reflexivity|]. exists f. split; reflexivity.
  - intros [= <-]. right. split; reflexivity.
Qed.

Lemma optional_phi_inv (state : Options) (entry : option Field3D) :
  optional_phi state = Ok entry ->
  (phi_is_set state = Ok true /\
   exists phi, entry = Some phi /\ get_phi state = Ok phi) \/
  (phi_is_set state = Ok false /\ entry = None).
Proof.
  unfold optional_phi. destruct (phi_is_set state) as [[|]|e]; cbn.
  - destruct (get_phi state) as [phi|e]; cbn; [|discriminate].
    intros [= <-]. left. split; [reflexivity|]. exists phi. split; reflexivity.
  - intros [= <-]. right. split; reflexivity.
  - discriminate.
Qed.

Lemma typical_wave_speed_supplied `{lib : FieldLib} (state species : Options)
    (cs : Field3D) :
  Opt.isSet state "sound_speed" = true ->
  get_Field3D_at state "sound_speed" = Ok cs ->
  typical_wave_speed state species = Ok Field3D_unassigned.
Proof.
  intros Hset Hget. unfold typical_wave_speed.
  rewrite Hset, Hget. reflexivity.
Qed.

Lemma typical_wave_speed_temperature `{lib : FieldLib} (state species : Options)
    (T : Field3D) :
  Opt.isSet state "sound_speed" = false ->
  get_Field3D_at species "temperature" = Ok T ->
  typical_wave_speed state species = Ok (F3.sqrt T).
Proof.
  intros Hset Hget. unfold typical_wave_speed.
  rewrite Hset, Hget. reflexivity.
Qed.

Section DensityFlow.

Context `{lib : FieldLib} `{ops : DiffOps}.
Variable coord : Coordinates.

(** The parallel-flow term of the density equation, with the other
    optional terms switched off and no density source published. *)
Lemma finally_parallel_flow (self : EvolveDensity.t) (state species : Options)
    (n V wave_speed : Field3D) (potential : option Field3D) :
  EvolveDensity.low_n_diffuse self = false ->
  EvolveDensity.low_n_diffuse_perp self = false ->
  EvolveDensity.hyper_z self = bool_to_BoutReal false ->
  EvolveDensity.evolve_log self = false ->
  species_of state (EvolveDensity.name self) = Ok species ->
  get_Field3D_at species "density" = Ok n ->
  Opt.isSet species "velocity" = true ->
  get_Field3D_at species "velocity" = Ok V ->
  typical_wave_speed state species = Ok wave_speed ->
  optional_phi state = Ok potential ->
  Opt.isSet species "density_source" = false ->
  exists self',
    EvolveDensity.finally coord self state = Ok self' /\
    forall i j k,
      EvolveDensity.ddt_N self' i j k =
      match potential with
      | Some phi =>
          - Div_n_bxGrad_f_B_XPPM n phi (EvolveDensity.bndry_flux self)
              (EvolveDensity.poloidal_flows self) true i j k
          - Div_par n V (F3.scale (sqrt (SI_Me / SI_Mp)) wave_speed) i j k
      | None => 0 - Div_par n V wave_speed i j k
      end
      + EvolveDensity.source self i j k.
Proof using Type.
  intros Hpar Hperp Hz Hlog Hsp Hn Hv HV Hws Hphi Hsrc.
  unfold EvolveDensity.finally.
  rewrite Hsp, bind_Ok, Hn, bind_Ok.
  apply optional_phi_inv in Hphi
    as [(Hset & phi & -> & Hget) | (Hset & ->)]; rewrite Hset, bind_Ok.
  - rewrite Hget, Hv, HV, Hws, Hpar, Hperp, Hz, Hsrc. run_binds.
    unfold bool_to_BoutReal.
    destruct (Rgt_dec 0 0) as [Hgt | _]; [exfalso; lra|].
    eexists. split; [reflexivity|].
    intros i j k. cbn [EvolveDensity.ddt_N EvolveDensity.with_ddt].
    unfold F3.add, F3.sub, F3.neg. lra.
  - rewrite Hv, HV, Hws, Hpar, Hperp, Hz, Hsrc. run_binds.
    unfold bool_to_BoutReal.
    destruct (Rgt_dec 0 0) as [Hgt | _]; [exfalso; lra|].
    eexists. split; [reflexivity|].
    intros i j k. cbn [EvolveDensity.ddt_N EvolveDensity.with_ddt].
    unfold F3.add, F3.sub, F3.const. lra.
Qed.

(** C2, the code on a state that supplies [sound_speed].  The species
    ["e"] publishes a density [n] and a velocity [V] but no temperature,
    and the state carries a sound-speed field [cs].  [finally] completes
    without reading a temperature, and the wave speed it hands to
    [FV::Div_par] is the field that was declared without data: the
    supplied [cs] does not occur in the result. *)
Theorem finally_drops_supplied_sound_speed (cs n V : Field3D) :
  exists self',
    EvolveDensity.finally coord sample_density
      (state_with [field_entry "sound_speed" cs]
                  [field_entry "density" n; field_entry "velocity" V])
    = Ok self' /\
    forall i j k,
      EvolveDensity.ddt_N self' i j k
      = 0 - Div_par n V Field3D_unassigned i j k + 3.
Proof using Type.
  apply (finally_parallel_flow sample_density _
           (OptSection (list_to_map
              [field_entry "density" n; field_entry "velocity" V]))
           n V Field3D_unassigned None); reflexivity.
Qed.

End DensityFlow.

(** ** Properties of the momentum component *)

Section Momentum.

Context `{limiter : CellEdges} `{lib : FieldLib} `{ops : DiffOps}.
Variable mesh : Mesh.
Variable coord : Coordinates.

(** C8.  When the entries it needs can be read, [finally] completes and
    [ddt(NV)] is, in every cell: minus the ExB divergence of [NV] when
    [fields.phi] is set and zero when it is not; minus the result of
    [FV::Div_par_fvv] called on the published density and velocity with
    [fixflux = false]; minus [Grad_par(P)] when a pressure [P] is
    published and nothing when none is; plus the published
    [momentum_source] when there is one and nothing when there is none. *)
Theorem finally_momentum_terms (self : EvolveMomentum.t)
    (state species : Options) (potential pressure momentum_source : option Field3D)
    (n V wave_speed advection : Field3D) :
  species_of state (EvolveMomentum.name self) = Ok species ->
  optional_phi state = Ok potential ->
  get_Field3D_at species "density" = Ok n ->
  get_Field3D_at species "velocity" = Ok V ->
  typical_wave_speed state species = Ok wave_speed ->
  FV.Div_par_fvv mesh coord n V wave_speed false = Ok advection ->
  optional_field species "pressure" = Ok pressure ->
  optional_field species "momentum_source" = Ok momentum_source ->
  exists self',
    EvolveMomentum.finally mesh coord self state = Ok self' /\
    forall i j k,
      EvolveMomentum.ddt_NV self' i j k =
      match potential with
      | Some phi =>
          - Div_n_bxGrad_f_B_XPPM (EvolveMomentum.NV self) phi
              (EvolveMomentum.bndry_flux self)
              (EvolveMomentum.poloidal_flows self) true i j k
      | None => 0
      end
      - advection i j k
      - match pressure with
        | Some P => Grad_par P i j k
        | None => 0
        end
      + match momentum_source with
        | Some extra => extra i j k
        | None => 0
        end.
Proof using Type.
  intros Hsp Hphi Hn HV Hws Hadv HP HS.
  unfold EvolveMomentum.finally.
  rewrite Hsp. run_binds.
  apply optional_phi_inv in Hphi
    as [(Hset & phi & -> & Hget) | (Hset & ->)];
    rewrite Hset; rewrite ?Hget; run_binds;
    rewrite Hn; run_binds; rewrite HV; run_binds;
    rewrite Hws; run_binds; rewrite Hadv; run_binds;
    apply optional_field_inv in HP
      as [(HPset & P & -> & HPget) | (HPset & ->)];
    rewrite HPset; rewrite ?HPget; run_binds;
    apply optional_field_inv in HS
      as [(HSset & extra & -> & HSget) | (HSset & ->)];
    rewrite HSset; rewrite ?HSget; run_binds;
    (eexists; split; [reflexivity|]);
    intros i j k; cbn [EvolveMomentum.ddt_NV];
    unfold F3.add, F3.sub, F3.neg, F3.const; lra.
Qed.

(** C10.  The momentum component cannot do without density, atomic mass,
    velocity and (failing a supplied sound speed) temperature:
    [transform] fails when the species has no density or no [AA] set,
    and [finally] fails when no density is published, when no velocity
    is published, and when neither a [sound_speed] nor a temperature is
    set.  The density component, by contrast, completes [finally] on a
    state that publishes no velocity. *)
Theorem momentum_required_fields (self : EvolveMomentum.t) (state : Options) :
  let species :=
    Opt.at_mut (Opt.at_mut state "species") (EvolveMomentum.name self) in
  (Opt.isSet species "density" = false ->
   is_Err (EvolveMomentum.transform self state)) /\
  (Opt.isSet species "AA" = false ->
   is_Err (EvolveMomentum.transform self state)) /\
  (published state (EvolveMomentum.name self) "density" = false ->
   is_Err (EvolveMomentum.finally mesh coord self state)) /\
  (published state (EvolveMomentum.name self) "velocity" = false ->
   is_Err (EvolveMomentum.finally mesh coord self state)) /\
  (Opt.isSet state "sound_speed" = false ->
   published state (EvolveMomentum.name self) "temperature" = false ->
   is_Err (EvolveMomentum.finally mesh coord self state)) /\
  (forall (density : EvolveDensity.t) (published_by_density : Options)
          (n : Field3D) (potential density_source : option Field3D),
     species_of state (EvolveDensity.name density) = Ok published_by_density ->
     get_Field3D_at published_by_density "density" = Ok n ->
     Opt.isSet published_by_density "velocity" = false ->
     optional_phi state = Ok potential ->
     optional_field published_by_density "density_source" = Ok density_source ->
     exists density', EvolveDensity.finally coord density state = Ok density').
Proof using Type.
  intros species. repeat split.
  - intros Hunset. unfold EvolveMomentum.transform, set_Field3D. fold species.
    apply is_Err_bind.
    rewrite at_mut_put_other by discriminate.
    apply get_unset_mut, Hunset.
  - intros Hunset. unfold EvolveMomentum.transform, set_Field3D. fold species.
    destruct (get_Field3D _) as [n|e]; [|exact I]. run_binds.
    apply is_Err_bind.
    rewrite at_mut_put_other by discriminate.
    apply get_unset_mut, Hunset.
  - unfold published, EvolveMomentum.finally.
    destruct (species_of state _) as [sp|e]; [|intros _; exact I].
    intros Hunset. run_binds.
    destruct (phi_is_set state) as [[|]|e]; [| |exact I]; run_binds;
      [destruct (get_phi state) as [phi|e]; [|exact I]; run_binds|];
      apply is_Err_bind, get_unset_const, Hunset.
  - unfold published, EvolveMomentum.finally.
    destruct (species_of state _) as [sp|e]; [|intros _; exact I].
    intros Hunset. run_binds.
    destruct (phi_is_set state) as [[|]|e]; [| |exact I]; run_binds;
      [destruct (get_phi state) as [phi|e]; [|exact I]; run_binds|];
      (destruct (get_Field3D_at sp "density") as [n|e]; [|exact I]); run_binds;
      apply is_Err_bind, get_unset_const, Hunset.
  - unfold published, EvolveMomentum.finally.
    destruct (species_of state _) as [sp|e]; [|intros _ _; exact I].
    intros Hspeed Hunset. run_binds.
    destruct (phi_is_set state) as [[|]|e]; [| |exact I]; run_binds;
      [destruct (get_phi state) as [phi|e]; [|exact I]; run_binds|];
      (destruct (get_Field3D_at sp "density") as [n|e]; [|exact I]); run_binds;
      (destruct (get_Field3D_at sp "velocity") as [V|e]; [|exact I]); run_binds;
      apply is_Err_bind; unfold typical_wave_speed; rewrite Hspeed;
      apply is_Err_bind, get_unset_const, Hunset.
  - intros density sp n potential density_source Hsp Hn Hv Hphi Hsrc.
    unfold EvolveDensity.finally.
    rewrite Hsp; run_binds. rewrite Hn; run_binds.
    apply optional_phi_inv in Hphi
      as [(Hset & phi & -> & Hget) | (Hset & ->)];
      rewrite Hset; rewrite ?Hget; run_binds;
      rewrite Hv; run_binds;
      apply optional_field_inv in Hsrc
        as [(Hsset & extra & -> & Hsget) | (Hsset & ->)];
      rewrite Hsset; rewrite ?Hsget; run_binds;
      eexists; reflexivity.
Qed.

End Momentum.

(** C8 on a state in which species ["e"] publishes density 1, velocity 0,
    temperature 1 and pressure 5, with neither potential nor momentum
    source: the derivative is minus the advection term minus the
    (sample) pressure gradient 5. *)
Lemma finally_momentum_terms_witness :
  let state :=
    state_with [] [field_entry "density" (F3.const 1);
                   field_entry "velocity" (F3.const 0);
                   field_entry "temperature" (F3.const 1);
                   field_entry "pressure" (F3.const 5)] in
  let advection :=
    @FV.flux_loops MC sample_mesh sample_coord false
      (F3.const 1) (F3.const 0) (F3.sqrt (F3.const 1)) in
  exists self',
    @EvolveMomentum.finally MC (checked_lib (fun _ _ => true)) sample_ops
      sample_mesh sample_coord sample_momentum state = Ok self' /\
    forall i j k,
      EvolveMomentum.ddt_NV self' i j k = 0 - advection i j k - 5 + 0.
Proof.
  intros state advection.
  apply (@finally_momentum_terms MC (checked_lib (fun _ _ => true)) sample_ops
           sample_mesh sample_coord sample_momentum state
           (OptSection (list_to_map
              [field_entry "density" (F3.const 1);
               field_entry "velocity" (F3.const 0);
               field_entry "temperature" (F3.const 1);
               field_entry "pressure" (F3.const 5)]))
           None (Some (F3.const 5)) None
           (F3.const 1) (F3.const 0) (F3.sqrt (F3.const 1)) advection);
    reflexivity.
Defined.

(** C10 on the empty state, where nothing has been published: both
    phases of the momentum component fail. *)
Lemma momentum_required_fields_witness :
  is_Err (@EvolveMomentum.transform (checked_lib (fun _ _ => true))
            sample_momentum Opt.fresh) /\
  is_Err (@EvolveMomentum.finally MC (checked_lib (fun _ _ => true)) sample_ops
            sample_mesh sample_coord sample_momentum Opt.fresh).
Proof.
  destruct (@momentum_required_fields MC (checked_lib (fun _ _ => true))
              sample_ops sample_mesh sample_coord sample_momentum Opt.fresh)
    as (Hdensity & _ & Hfinally & _).
  split; [apply Hdensity | apply Hfinally]; reflexivity.
Defined.

(** ** The order of the two [transform]s *)

Lemma at_mut_put_same (o c : Options) (key : string) :
  Opt.at_mut (Opt.put o key c) key = c.
Proof.
  unfold Opt.at_mut, Opt.put. cbn [Opt.children].
  rewrite lookup_insert_eq. reflexivity.
Qed.

Lemma at_const_put_same (o c : Options) (key : string) :
  Opt.at_const (Opt.put o key c) key = Ok c.
Proof.
  unfold Opt.at_const, Opt.put. cbn [Opt.children].
  rewrite lookup_insert_eq. reflexivity.
Qed.

Lemma isSet_put_value (o : Options) (key : string) (v : OptionValue) :
  Opt.isSet (Opt.put o key (OptValue v)) key = true.
Proof.
  unfold Opt.isSet, Opt.put. cbn [Opt.children].
  rewrite lookup_insert_eq. reflexivity.
Qed.

(** Simplifies reads of a node that has just been written. *)
Ltac read_back :=
  repeat first
    [ rewrite at_mut_put_same
    | rewrite at_const_put_same
    | rewrite isSet_put_value
    | rewrite at_mut_put_other by discriminate
    | rewrite isSet_put_other by discriminate ].

Section TransformOrder.

Context `{lib : FieldLib}.

(** X15.  Once the density component of a species has run [transform],
    the momentum component of the same species can run its own: it finds
    the density and the atomic mass, and publishes the velocity
    [NV / (AA * N)]. *)
Lemma momentum_transform_after_density (density : EvolveDensity.t)
    (momentum : EvolveMomentum.t) (state : Options) :
  EvolveMomentum.name momentum = EvolveDensity.name density ->
  exists momentum' state' species,
    EvolveMomentum.transform momentum (EvolveDensity.transform density state).2
      = Ok (momentum', state') /\
    species_of state' (EvolveMomentum.name momentum) = Ok species /\
    get_Field3D_at species "velocity"
      = Ok (F3.div (communicate (EvolveMomentum.NV momentum))
              (F3.scale (EvolveDensity.AA density)
                 (EvolveDensity.N (EvolveDensity.transform density state).1))).
Proof using Type.
  intros Hname.
  unfold EvolveMomentum.transform, EvolveDensity.transform.
  cbn [fst snd EvolveDensity.N EvolveDensity.with_N]. rewrite Hname.
  unfold set_Field3D, set_BoutReal.
  destruct (Req_dec_T (EvolveDensity.charge density) 0); read_back;
    cbn [get_Field3D get_BoutReal]; run_binds;
    (eexists; eexists; eexists; split; [reflexivity|]);
    unfold species_of, get_Field3D_at; read_back; run_binds;
    read_back; run_binds; split; reflexivity.
Qed.

End TransformOrder.

(** ** The value of [result] at a cell *)

Section PointValue.

Context `{limiter : CellEdges}.
Variable mesh : Mesh.
Variable coord : Coordinates.

Lemma cell_body_at fixflux (f v wave_speed r : Field3D) i j k i0 j0 k0 :
  FV.cell_body mesh coord fixflux f v wave_speed i j k r i0 j0 k0
  = r i0 j0 k0
    + when ((i =? i0)%Z && (k =? k0)%Z)
           (point_share mesh coord fixflux f v wave_speed j0 i j k).
Proof using Type.
  unfold FV.cell_body, add_at, sub_at, same_cell, point_share, when.
  destruct (Z.eqb_spec i i0), (Z.eqb_spec k k0); cbn [andb];
    settle_tests; cbn [andb]; lra.
Qed.

Lemma sum_point_share fixflux (f v wave_speed : Field3D) (lo hi i j0 k : Z) :
  sum_over (seqZ lo (hi - lo + 1))
    (fun j => point_share mesh coord fixflux f v wave_speed j0 i j k)
  = when (in_range lo hi j0)
      (FV.flux_right mesh fixflux f v wave_speed i j0 k
         * FV.flux_factor_rc coord i j0
       - FV.flux_left mesh fixflux f v wave_speed i j0 k
         * FV.flux_factor_lc coord i j0)
    - when (in_range lo hi (j0 - 1))
        (FV.flux_right mesh fixflux f v wave_speed i (j0 - 1) k
         * FV.flux_factor_rp coord i (j0 - 1))
    + when (in_range lo hi (j0 + 1))
        (FV.flux_left mesh fixflux f v wave_speed i (j0 + 1) k
         * FV.flux_factor_lm coord i (j0 + 1)).
Proof using Type.
  rewrite (sum_over_ext _ _
    (fun j =>
       when (j =? j0)%Z
         (FV.flux_right mesh fixflux f v wave_speed i j k
          * FV.flux_factor_rc coord i j)
       - when (j =? j0 - 1)%Z
           (FV.flux_right mesh fixflux f v wave_speed i j k
            * FV.flux_factor_rp coord i j)
       - when (j =? j0)%Z
           (FV.flux_left mesh fixflux f v wave_speed i j k
            * FV.flux_factor_lc coord i j)
       + when (j =? j0 + 1)%Z
           (FV.flux_left mesh fixflux f v wave_speed i j k
            * FV.flux_factor_lm coord i j))).
  - rewrite sum_over_plus, !sum_over_minus, !sum_over_range_single.
    unfold when. destruct (in_range lo hi j0); lra.
  - intros j _. unfold point_share, when. settle_tests; lra.
Qed.

Lemma flux_loops_at fixflux (f v wave_speed : Field3D) i j k :
  FV.flux_loops mesh coord fixflux f v wave_speed i j k
  = when (in_range (xstart mesh) (xend mesh) i
          && in_range 0 (LocalNz mesh - 1) k)
      (when (in_range (FV.ys mesh i) (FV.ye mesh i) j)
         (FV.flux_right mesh fixflux f v wave_speed i j k
            * FV.flux_factor_rc coord i j
          - FV.flux_left mesh fixflux f v wave_speed i j k
            * FV.flux_factor_lc coord i j)
       - when (in_range (FV.ys mesh i) (FV.ye mesh i) (j - 1))
           (FV.flux_right mesh fixflux f v wave_speed i (j - 1) k
            * FV.flux_factor_rp coord i (j - 1))
       + when (in_range (FV.ys mesh i) (FV.ye mesh i) (j + 1))
           (FV.flux_left mesh fixflux f v wave_speed i (j + 1) k
            * FV.flux_factor_lm coord i (j + 1))).
Proof using Type.
  rewrite <- sum_point_share, <- when_and. unfold FV.flux_loops.
  rewrite (for_range_measure (fun r : Field3D => r i j k) _ _ _
             (fun i' => when (i' =? i)%Z
                (when (in_range 0 (LocalNz mesh - 1) k)
                   (sum_over (seqZ (FV.ys mesh i')
                                (FV.ye mesh i' - FV.ys mesh i' + 1))
                      (fun j' => point_share mesh coord fixflux f v wave_speed
                                   j i' j' k))))).
  - rewrite sum_over_range_single. unfold F3.zeroFrom, F3.const. lra.
  - intros i' r _.
    rewrite (for_range_measure (fun r : Field3D => r i j k) _ _ _
               (fun j' => when (i' =? i)%Z
                  (when (in_range 0 (LocalNz mesh - 1) k)
                     (point_share mesh coord fixflux f v wave_speed j i' j' k)))).
    + rewrite !sum_over_when. reflexivity.
    + intros j' r' _.
      rewrite (for_range_measure (fun r : Field3D => r i j k) _ _ _
                 (fun k' => when (k' =? k)%Z
                    (when (i' =? i)%Z
                       (point_share mesh coord fixflux f v wave_speed j i' j' k')))).
      * rewrite sum_over_range_single. unfold when.
        destruct (i' =? i)%Z, (in_range 0 (LocalNz mesh - 1) k); reflexivity.
      * intros k' r'' _. rewrite cell_body_at, when_and.
        f_equal. f_equal. apply andb_comm.
Qed.

End PointValue.

Section PointProperties.

Context `{limiter : CellEdges}.
Variable mesh : Mesh.
Variable coord : Coordinates.

(** X1.  The value that the three loops of [Div_par_fvv] leave in
    [result(i, j, k)].  Outside the x range [xstart..xend] or the z range
    [0..LocalNz-1] it is zero.  Inside, it collects at most four updates:
    the right and left fluxes of the cell itself when [j] is visited by
    the y loop, the right flux of cell [j - 1] when that cell is visited,
    and the left flux of cell [j + 1] when that one is. *)
Theorem flux_loops_cell_value (fixflux : bool) (f v wave_speed : Field3D)
    (i j k : Z) :
  FV.flux_loops mesh coord fixflux f v wave_speed i j k
  = if in_range (xstart mesh) (xend mesh) i && in_range 0 (LocalNz mesh - 1) k
    then
      (if in_range (FV.ys mesh i) (FV.ye mesh i) j
       then FV.flux_right mesh fixflux f v wave_speed i j k
              * FV.flux_factor_rc coord i j
            - FV.flux_left mesh fixflux f v wave_speed i j k
              * FV.flux_factor_lc coord i j
       else 0)
      - (if in_range (FV.ys mesh i) (FV.ye mesh i) (j - 1)
         then FV.flux_right mesh fixflux f v wave_speed i (j - 1) k
                * FV.flux_factor_rp coord i (j - 1)
         else 0)
      + (if in_range (FV.ys mesh i) (FV.ye mesh i) (j + 1)
         then FV.flux_left mesh fixflux f v wave_speed i (j + 1) k
                * FV.flux_factor_lm coord i (j + 1)
         else 0)
    else 0.
Proof using Type.
  rewrite flux_loops_at. unfold when. reflexivity.
Qed.

(** X2.  Cells the loops never write keep the zero of [zeroFrom]: every
    cell in an x guard column, every cell outside the z range, and every
    cell more than one row beyond the rows visited by the y loop. *)
Theorem flux_loops_untouched (fixflux : bool) (f v wave_speed : Field3D)
    (i j k : Z) :
  (i < xstart mesh \/ xend mesh < i \/
   k < 0 \/ LocalNz mesh <= k \/
   j < FV.ys mesh i - 1 \/ FV.ye mesh i + 1 < j)%Z ->
  FV.flux_loops mesh coord fixflux f v wave_speed i j k = 0.
Proof using Type.
  intros Hout. rewrite flux_loops_at. unfold when, in_range.
  destruct Hout as [H | [H | [H | [H | [H | H]]]]];
    settle_tests; cbn [andb]; lra.
Qed.

Lemma flux_right_agree fixflux (f v wave_speed f' v' wave_speed' : Field3D) i j k :
  (forall j', (j - 1 <= j' <= j + 1)%Z ->
     f i j' k = f' i j' k /\ v i j' k = v' i j' k /\
     wave_speed i j' k = wave_speed' i j' k) ->
  FV.flux_right mesh fixflux f v wave_speed i j k
  = FV.flux_right mesh fixflux f' v' wave_speed' i j k.
Proof using Type.
  intros H. unfold FV.flux_right, FV.reconstruct.
  destruct (H j ltac:(lia)) as (-> & -> & ->).
  destruct (H (j - 1)%Z ltac:(lia)) as (-> & -> & _).
  destruct (H (j + 1)%Z ltac:(lia)) as (-> & -> & ->).
  reflexivity.
Qed.

Lemma flux_left_agree fixflux (f v wave_speed f' v' wave_speed' : Field3D) i j k :
  (forall j', (j - 1 <= j' <= j + 1)%Z ->
     f i j' k = f' i j' k /\ v i j' k = v' i j' k /\
     wave_speed i j' k = wave_speed' i j' k) ->
  FV.flux_left mesh fixflux f v wave_speed i j k
  = FV.flux_left mesh fixflux f' v' wave_speed' i j k.
Proof using Type.
  intros H. unfold FV.flux_left, FV.reconstruct.
  destruct (H j ltac:(lia)) as (-> & -> & ->).
  destruct (H (j - 1)%Z ltac:(lia)) as (-> & -> & ->).
  destruct (H (j + 1)%Z ltac:(lia)) as (-> & -> & _).
  reflexivity.
Qed.

(** X3.  The stencil of the operator.  [result(i, j, k)] is determined by
    the values of the three inputs in column [i] and plane [k] at the five
    rows [j - 2 .. j + 2]: two sets of inputs that agree there give the
    same value. *)
Theorem flux_loops_stencil (fixflux : bool)
    (f v wave_speed f' v' wave_speed' : Field3D) (i j k : Z) :
  (forall j', (j - 2 <= j' <= j + 2)%Z ->
     f i j' k = f' i j' k /\ v i j' k = v' i j' k /\
     wave_speed i j' k = wave_speed' i j' k) ->
  FV.flux_loops mesh coord fixflux f v wave_speed i j k
  = FV.flux_loops mesh coord fixflux f' v' wave_speed' i j k.
Proof using Type.
  intros H. rewrite !flux_loops_at.
  rewrite (flux_right_agree fixflux f v wave_speed f' v' wave_speed' i j k)
    by (intros; apply H; lia).
  rewrite (flux_left_agree fixflux f v wave_speed f' v' wave_speed' i j k)
    by (intros; apply H; lia).
  rewrite (flux_right_agree fixflux f v wave_speed f' v' wave_speed' i (j - 1) k)
    by (intros; apply H; lia).
  rewrite (flux_left_agree fixflux f v wave_speed f' v' wave_speed' i (j + 1) k)
    by (intros; apply H; lia).
  reflexivity.
Qed.

End PointProperties.

(** ** Uniform flow *)

Section UniformFlow.

Context `{limiter : CellEdges}.
Variable mesh : Mesh.
Variable coord : Coordinates.

Lemma loop_covers_neighbours i j :
  (ystart mesh <= j <= yend mesh)%Z ->
  (j = ystart mesh -> physical_first mesh i = false) ->
  (j = yend mesh -> physical_last mesh i = false) ->
  in_range (FV.ys mesh i) (FV.ye mesh i) j = true /\
  in_range (FV.ys mesh i) (FV.ye mesh i) (j - 1) = true /\
  in_range (FV.ys mesh i) (FV.ye mesh i) (j + 1) = true.
Proof using Type.
  intros Hj Hfirst Hlast.
  unfold physical_first in Hfirst. unfold physical_last in Hlast.
  assert (Hlo : (FV.ys mesh i <= j - 1)%Z).
  { unfold FV.ys.
    destruct (firstY mesh i), (periodicY mesh i); cbn [negb orb andb] in *;
      lia. }
  assert (Hhi : (j + 1 <= FV.ye mesh i)%Z).
  { unfold FV.ye.
    destruct (lastY mesh i), (periodicY mesh i); cbn [negb orb andb] in *;
      lia. }
  unfold in_range. repeat split; apply andb_true_intro; split;
    apply Z.leb_le; lia.
Qed.

Lemma faces_are_interior i j :
  (ystart mesh <= j <= yend mesh)%Z ->
  (j = ystart mesh -> physical_first mesh i = false) ->
  (j = yend mesh -> physical_last mesh i = false) ->
  FV.last_point mesh i j = false /\ FV.last_point mesh i (j - 1) = false /\
  FV.first_point mesh i j = false /\ FV.first_point mesh i (j + 1) = false.
Proof using Type.
  intros Hj Hfirst Hlast.
  unfold physical_first in Hfirst. unfold physical_last in Hlast.
  unfold FV.last_point, FV.first_point.
  destruct (firstY mesh i), (lastY mesh i), (periodicY mesh i);
    cbn [andb negb] in *; settle_tests; cbn [andb];
    repeat split; first [reflexivity | exfalso; lia].
Qed.

(** The interior fluxes of a flow that is uniform along the column. *)
Lemma flux_right_uniform fixflux (f v wave_speed : Field3D) i j k f0 v0 a0 :
  FV.last_point mesh i j = false ->
  (forall j', f i j' k = f0 /\ v i j' k = v0 /\ wave_speed i j' k = a0) ->
  FV.flux_right mesh fixflux f v wave_speed i j k
  = FV.flux_right mesh fixflux (F3.const f0) (F3.const v0) (F3.const a0) i j k.
Proof using Type.
  intros Hface H. unfold FV.flux_right, FV.reconstruct, F3.const.
  rewrite Hface.
  destruct (H j) as (-> & -> & ->).
  destruct (H (j - 1)%Z) as (-> & -> & _).
  destruct (H (j + 1)%Z) as (-> & -> & ->).
  reflexivity.
Qed.

Lemma flux_left_uniform fixflux (f v wave_speed : Field3D) i j k f0 v0 a0 :
  FV.first_point mesh i j = false ->
  (forall j', f i j' k = f0 /\ v i j' k = v0 /\ wave_speed i j' k = a0) ->
  FV.flux_left mesh fixflux f v wave_speed i j k
  = FV.flux_left mesh fixflux (F3.const f0) (F3.const v0) (F3.const a0) i j k.
Proof using Type.
  intros Hface H. unfold FV.flux_left, FV.reconstruct, F3.const.
  rewrite Hface.
  destruct (H j) as (-> & -> & ->).
  destruct (H (j - 1)%Z) as (-> & -> & ->).
  destruct (H (j + 1)%Z) as (-> & -> & _).
  reflexivity.
Qed.

Lemma flux_right_same_on_uniform fixflux f0 v0 a0 i j j' k :
  FV.last_point mesh i j = false -> FV.last_point mesh i j' = false ->
  FV.flux_right mesh fixflux (F3.const f0) (F3.const v0) (F3.const a0) i j k
  = FV.flux_right mesh fixflux (F3.const f0) (F3.const v0) (F3.const a0) i j' k.
Proof using Type.
  intros H1 H2. unfold FV.flux_right, FV.reconstruct, F3.const.
  rewrite H1, H2. reflexivity.
Qed.

Lemma flux_left_same_on_uniform fixflux f0 v0 a0 i j j' k :
  FV.first_point mesh i j = false -> FV.first_point mesh i j' = false ->
  FV.flux_left mesh fixflux (F3.const f0) (F3.const v0) (F3.const a0) i j k
  = FV.flux_left mesh fixflux (F3.const f0) (F3.const v0) (F3.const a0) i j' k.
Proof using Type.
  intros H1 H2. unfold FV.flux_left, FV.reconstruct, F3.const.
  rewrite H1, H2. reflexivity.
Qed.

(** X4.  Free-stream preservation.  Where density, velocity and wave
    speed are uniform along a column, and so is the metric, the loops
    leave exactly zero in every interior cell of that column that does
    not touch a physical boundary: the four fluxes that enter the cell
    cancel in pairs. *)
Theorem flux_loops_uniform_flow (fixflux : bool) (f v wave_speed : Field3D)
    (i j k : Z) (f0 v0 a0 J0 g0 d0 : BoutReal) :
  in_RGN_NOBNDRY mesh i j k ->
  (j = ystart mesh -> physical_first mesh i = false) ->
  (j = yend mesh -> physical_last mesh i = false) ->
  (forall j', f i j' k = f0 /\ v i j' k = v0 /\ wave_speed i j' k = a0) ->
  (forall j', J coord i j' = J0 /\ g_22 coord i j' = g0 /\ dy coord i j' = d0) ->
  FV.flux_loops mesh coord fixflux f v wave_speed i j k = 0.
Proof using Type.
  intros (Hi & Hj & Hk) Hfirst Hlast Hflow Hmetric.
  rewrite flux_loops_at.
  destruct (loop_covers_neighbours i j Hj Hfirst Hlast) as (-> & -> & ->).
  destruct (faces_are_interior i j Hj Hfirst Hlast) as (HR & HR' & HL & HL').
  rewrite (flux_right_uniform fixflux f v wave_speed i j k f0 v0 a0 HR Hflow).
  rewrite (flux_right_uniform fixflux f v wave_speed i (j - 1) k f0 v0 a0 HR' Hflow).
  rewrite (flux_left_uniform fixflux f v wave_speed i j k f0 v0 a0 HL Hflow).
  rewrite (flux_left_uniform fixflux f v wave_speed i (j + 1) k f0 v0 a0 HL' Hflow).
  rewrite (flux_right_same_on_uniform fixflux f0 v0 a0 i (j - 1) j k HR' HR).
  rewrite (flux_left_same_on_uniform fixflux f0 v0 a0 i (j + 1) j k HL' HL).
  unfold FV.flux_factor_rc, FV.flux_factor_rp, FV.flux_factor_lc,
    FV.flux_factor_lm, FV.common_factor_r, FV.common_factor_l.
  replace (j - 1 + 1)%Z with j by lia.
  replace (j + 1 - 1)%Z with j by lia.
  destruct (Hmetric j) as (-> & -> & ->).
  destruct (Hmetric (j - 1)%Z) as (-> & -> & _).
  destruct (Hmetric (j + 1)%Z) as (-> & -> & _).
  unfold when.
  destruct (in_range (xstart mesh) (xend mesh) i
            && in_range 0 (LocalNz mesh - 1) k); ring.
Qed.

End UniformFlow.

(** X2 on the sample column: the cell [(0, 3, 0)] lies in an x guard
    column and is never written. *)
Lemma flux_loops_untouched_witness :
  @FV.flux_loops MC sample_mesh sample_coord false
    (F3.const 1) (F3.const 1) (F3.const 1) 0%Z 3%Z 0%Z = 0.
Proof.
  apply (@flux_loops_untouched MC sample_mesh sample_coord).
  left. cbn. lia.
Defined.

(** X3 on the sample column: a density that differs from the uniform one
    only beyond row 5 gives the same value at row 3. *)
Lemma flux_loops_stencil_witness :
  @FV.flux_loops MC sample_mesh sample_coord false
    (F3.const 1) (F3.const 1) (F3.const 1) 2%Z 3%Z 0%Z
  = @FV.flux_loops MC sample_mesh sample_coord false
      (fun _ j _ => if (j <=? 5)%Z then 1 else 7) (F3.const 1) (F3.const 1)
      2%Z 3%Z 0%Z.
Proof.
  apply (@flux_loops_stencil MC sample_mesh sample_coord).
  intros j' Hj. unfold F3.const.
  replace (j' <=? 5)%Z with true by (symmetry; apply Z.leb_le; lia).
  repeat split; reflexivity.
Defined.

(** X4 on the sample column: row 3 touches neither boundary, and the
    uniform unit flow leaves zero there. *)
Lemma flux_loops_uniform_flow_witness :
  @FV.flux_loops MC sample_mesh sample_coord false
    (F3.const 1) (F3.const 1) (F3.const 1) 2%Z 3%Z 0%Z = 0.
Proof.
  apply (@flux_loops_uniform_flow MC sample_mesh sample_coord false
           (F3.const 1) (F3.const 1) (F3.const 1) 2 3 0 1 1 1 1 1 1).
  - unfold in_RGN_NOBNDRY. cbn. lia.
  - cbn. intros H. discriminate H.
  - cbn. intros H. discriminate H.
  - intros j'. repeat split; reflexivity.
  - intros j'. repeat split; reflexivity.
Defined.

(** ** One-sided flux weights *)

Section FluxWeights.

Context `{limiter : CellEdges}.
Variable mesh : Mesh.

Lemma right_weight_cases (vpar amax : BoutReal) :
  0 <= amax ->
  (vpar > amax -> Rmax 0 (Rmax vpar (0.5 * (vpar + amax))) = vpar) /\
  (vpar < - amax -> Rmax 0 (Rmax vpar (0.5 * (vpar + amax))) = 0) /\
  (~ vpar > amax -> ~ vpar < - amax ->
   Rmax 0 (Rmax vpar (0.5 * (vpar + amax))) = 0.5 * (vpar + amax)).
Proof using Type.
  intros Ha. unfold Rmax.
  repeat split; intros; repeat destruct (Rle_dec _ _); lra.
Qed.

Lemma left_weight_cases (vpar amax : BoutReal) :
  0 <= amax ->
  (vpar < - amax -> Rmin 0 (Rmin vpar (0.5 * (vpar - amax))) = vpar) /\
  (vpar > amax -> Rmin 0 (Rmin vpar (0.5 * (vpar - amax))) = 0) /\
  (~ vpar < - amax -> ~ vpar > amax ->
   Rmin 0 (Rmin vpar (0.5 * (vpar - amax))) = 0.5 * (vpar - amax)).
Proof using Type.
  intros Ha. unfold Rmin.
  repeat split; intros; repeat destruct (Rle_dec _ _); lra.
Qed.

Lemma BOUTMAX_nonneg (a b : BoutReal) : 0 <= a -> 0 <= b -> 0 <= BOUTMAX a b.
Proof using Type.
  intros Ha Hb. unfold BOUTMAX. destruct (Rgt_dec a b); assumption.
Qed.

(** X5.  The three regimes of an interior face are one continuous,
    one-sided weight.  For non-negative wave speeds the right flux is
    [s.R * w * sv.R] with [w = max(0, vpar, (vpar + amax) / 2)], which is
    never negative, and the left flux is [s.L * w * sv.L] with
    [w = min(0, vpar, (vpar - amax) / 2)], which is never positive: a
    right face only carries flow in the direction of increasing y, a left
    face only in the opposite direction, and the flux does not jump where
    [vpar] crosses [amax] or [-amax]. *)
Theorem interior_flux_weights (fixflux : bool) (f v wave_speed : Field3D)
    (i j k : Z) :
  let s := FV.reconstruct f i j k in
  let sv := FV.reconstruct v i j k in
  (FV.last_point mesh i j = false ->
   0 <= wave_speed i j k -> 0 <= wave_speed i (j + 1)%Z k ->
   let vpar := 0.5 * (v i j k + v i (j + 1)%Z k) in
   let amax := BOUTMAX (wave_speed i j k) (wave_speed i (j + 1)%Z k) in
   let w := Rmax 0 (Rmax vpar (0.5 * (vpar + amax))) in
   0 <= w /\
   FV.flux_right mesh fixflux f v wave_speed i j k
   = Stencil1D.R s * w * Stencil1D.R sv) /\
  (FV.first_point mesh i j = false ->
   0 <= wave_speed i j k -> 0 <= wave_speed i (j - 1)%Z k ->
   let vpar := 0.5 * (v i j k + v i (j - 1)%Z k) in
   let amax := BOUTMAX (wave_speed i j k) (wave_speed i (j - 1)%Z k) in
   let w := Rmin 0 (Rmin vpar (0.5 * (vpar - amax))) in
   w <= 0 /\
   FV.flux_left mesh fixflux f v wave_speed i j k
   = Stencil1D.L s * w * Stencil1D.L sv).
Proof using Type.
  intros s sv. split.
  - intros Hface Ha Hb vpar amax w.
    assert (Hamax : 0 <= amax) by (apply BOUTMAX_nonneg; assumption).
    split; [apply Rmax_l|].
    destruct (right_weight_cases vpar amax Hamax) as (Hup & Hin & Hmix).
    unfold FV.flux_right. rewrite Hface. fold s sv. cbv zeta. fold vpar amax.
    unfold w.
    destruct (Rgt_dec vpar amax) as [Hgt | Hle];
      [|destruct (Rlt_dec vpar (- amax)) as [Hlt | Hge]].
    + rewrite (Hup Hgt). reflexivity.
    + rewrite (Hin Hlt). ring.
    + rewrite (Hmix Hle Hge). ring.
  - intros Hface Ha Hb vpar amax w.
    assert (Hamax : 0 <= amax) by (apply BOUTMAX_nonneg; assumption).
    split; [apply Rmin_l|].
    destruct (left_weight_cases vpar amax Hamax) as (Hup & Hin & Hmix).
    unfold FV.flux_left. rewrite Hface. fold s sv. cbv zeta. fold vpar amax.
    unfold w.
    destruct (Rlt_dec vpar (- amax)) as [Hlt | Hge];
      [|destruct (Rgt_dec vpar amax) as [Hgt | Hle]].
    + rewrite (Hup Hlt). reflexivity.
    + rewrite (Hin Hgt). ring.
    + rewrite (Hmix Hge Hle). ring.
Qed.

End FluxWeights.

(** X5 on the sample column, at the marginal speed [vpar = amax = 1]:
    the right weight is 1 and the left weight is 0. *)
Lemma interior_flux_weights_witness :
  @FV.flux_right MC sample_mesh false (F3.const 1) (F3.const 1) (F3.const 1) 2 3 0
  = 1 * Rmax 0 (Rmax 1 1) * 1 /\
  @FV.flux_left MC sample_mesh false (F3.const 1) (F3.const 1) (F3.const 1) 2 3 0
  = 1 * Rmin 0 (Rmin 1 0) * 1.
Proof.
  destruct (@interior_flux_weights MC sample_mesh false
              (F3.const 1) (F3.const 1) (F3.const 1) 2 3 0) as [HR HL].
  assert (H0 : 0 <= F3.const 1 2%Z 3%Z 0%Z) by (unfold F3.const; lra).
  destruct (HR eq_refl H0 H0) as [_ ER].
  destruct (HL eq_refl H0 H0) as [_ EL].
  unfold FV.reconstruct, F3.const in ER, EL.
  destruct (MC_uniform 1) as [E1 E2].
  rewrite E2, BOUTMAX_same in ER. rewrite E1, BOUTMAX_same in EL.
  replace (0.5 * (1 + 1)) with 1 in ER, EL by lra.
  replace (0.5 * (1 + 1)) with 1 in ER by lra.
  replace (0.5 * (1 - 1)) with 0 in EL by lra.
  split; [exact ER | exact EL].
Defined.

(** ** Nothing to advect *)

Section ZeroDensity.

Context `{limiter : CellEdges} `{lib : FieldLib}.
Variable mesh : Mesh.
Variable coord : Coordinates.

Lemma flux_zero_density fixflux (f v wave_speed : Field3D) i j k :
  limiter_keeps_zero_stencil -> (forall j' k', f i j' k' = 0) ->
  FV.flux_right mesh fixflux f v wave_speed i j k = 0 /\
  FV.flux_left mesh fixflux f v wave_speed i j k = 0.
Proof using Type.
  intros Hlim Hf. unfold FV.flux_right, FV.flux_left, FV.reconstruct.
  rewrite !Hf. unfold limiter_keeps_zero_stencil in Hlim. rewrite Hlim.
  cbn [Stencil1D.centred Stencil1D.c Stencil1D.m Stencil1D.p
       Stencil1D.L Stencil1D.R].
  split.
  - destruct (FV.last_point mesh i j); [destruct fixflux; ring|].
    destruct (Rgt_dec _ _); [ring|]. destruct (Rlt_dec _ _); ring.
  - destruct (FV.first_point mesh i j); [destruct fixflux; ring|].
    destruct (Rlt_dec _ _); [ring|]. destruct (Rgt_dec _ _); ring.
Qed.

(** X6.  An advected field that is zero in every cell gives a result that
    is zero in every interior cell, whatever the velocity and the wave
    speed and for both boundary treatments: neither the upwind terms nor
    the wave-speed correction at a boundary create flux out of nothing.
    The limiter is assumed to return the zero stencil on a zero stencil,
    the transforms to take zero to zero, and the inputs to pass the
    assertions when these are enabled. *)
Theorem Div_par_fvv_zero_density (fixflux : bool) (f v wave_speed : Field3D) :
  limiter_keeps_zero_stencil ->
  transforms_keep_zero mesh ->
  ((1 <= CHECK)%Z ->
   areFieldsCompatible f v = true /\ areFieldsCompatible f wave_speed = true) ->
  (forall i j k, f i j k = 0) ->
  exists result,
    FV.Div_par_fvv mesh coord f v wave_speed fixflux = Ok result /\
    forall i j k, in_RGN_NOBNDRY mesh i j k -> result i j k = 0.
Proof using Type.
  intros Hlim [Hto Hfrom] Hcompat Hf.
  eexists. split.
  - unfold FV.Div_par_fvv, ASSERT1.
    destruct (1 <=? CHECK)%Z eqn:Hcheck; [|reflexivity].
    apply Z.leb_le in Hcheck. destruct (Hcompat Hcheck) as [-> ->].
    reflexivity.
  - intros i j k Hin. apply Hfrom; [|exact Hin].
    intros i' j' k'. rewrite flux_loops_at.
    destruct (in_range (xstart mesh) (xend mesh) i') eqn:Hx;
      [|unfold when; reflexivity].
    assert (Hzero : forall j'' k'', toFieldAligned f "RGN_NOX" i' j'' k'' = 0).
    { intros j'' k''. apply Hto; [exact Hf|].
      unfold in_range in Hx. apply andb_prop in Hx as [H1 H2].
      apply Z.leb_le in H1, H2. split; assumption. }
    destruct (flux_zero_density fixflux _ (toFieldAligned v "RGN_NOX")
                (toFieldAligned wave_speed "RGN_NOX") i' j' k' Hlim Hzero)
      as [-> ->].
    destruct (flux_zero_density fixflux _ (toFieldAligned v "RGN_NOX")
                (toFieldAligned wave_speed "RGN_NOX") i' (j' - 1) k' Hlim Hzero)
      as [-> _].
    destruct (flux_zero_density fixflux _ (toFieldAligned v "RGN_NOX")
                (toFieldAligned wave_speed "RGN_NOX") i' (j' + 1) k' Hlim Hzero)
      as [_ ->].
    unfold when.
    repeat match goal with
      | |- context [if ?b then _ else _] => destruct b
      end; ring.
Qed.

End ZeroDensity.

Lemma MC_keeps_zero_stencil : @limiter_keeps_zero_stencil MC.
Proof.
  unfold limiter_keeps_zero_stencil, cellboundary, MC, Stencil1D.centred.
  cbn [Stencil1D.c Stencil1D.m Stencil1D.p].
  replace (2 * (0 - 0)) with 0 by lra. rewrite minmod_zero_l.
  f_equal; lra.
Qed.

(** X6 on the sample column: zero density carried at unit velocity. *)
Lemma Div_par_fvv_zero_density_witness :
  exists result,
    @FV.Div_par_fvv MC (checked_lib (fun _ _ => true)) sample_mesh sample_coord
      (F3.const 0) (F3.const 1) (F3.const 1) false = Ok result /\
    forall i j k, in_RGN_NOBNDRY sample_mesh i j k -> result i j k = 0.
Proof.
  apply (@Div_par_fvv_zero_density MC (checked_lib (fun _ _ => true))
           sample_mesh sample_coord false (F3.const 0) (F3.const 1) (F3.const 1)).
  - exact MC_keeps_zero_stencil.
  - split; intros g Hg i j k _; apply Hg.
  - intros _. split; reflexivity.
  - reflexivity.
Defined.

(** ** The floor of the perpendicular regularisation *)

Lemma floor_bounds (value min : BoutReal) :
  min <= floor value min /\ value <= floor value min /\
  (min <= value -> floor value min = value) /\
  (value <= min -> floor value min = min).
Proof.
  unfold floor. destruct (Rlt_dec value min); repeat split; intros; lra.
Qed.

Lemma floor_mono (x y min : BoutReal) :
  x <= y -> floor x min <= floor y min.
Proof.
  intros Hxy. unfold floor.
  destruct (Rlt_dec x min), (Rlt_dec y min); lra.
Qed.

(** X7.  The coefficient of the low-density perpendicular diffusion,
    [density_floor / floor(N, 1e-3 * density_floor)].  For a positive
    [density_floor] the floored density is never below
    [1e-3 * density_floor], so the division is by a positive number and
    the coefficient lies in (0, 1000]; it equals [density_floor / n]
    wherever [n] is at least [1e-3 * density_floor], does not increase
    with [n], and is at most 1 wherever [n] is at least the floor. *)
Theorem low_n_perp_coefficient (density_floor n : BoutReal) :
  0 < density_floor ->
  let lo := 1e-3 * density_floor in
  0 < floor n lo /\
  0 < density_floor / floor n lo <= 1000 /\
  (lo <= n -> density_floor / floor n lo = density_floor / n) /\
  (n <= lo -> density_floor / floor n lo = 1000) /\
  (density_floor <= n -> density_floor / floor n lo <= 1) /\
  (forall n', n <= n' ->
     density_floor / floor n' lo <= density_floor / floor n lo).
Proof.
  intros Hd lo.
  assert (Hlo : 0 < lo) by (unfold lo; lra).
  assert (Elo : 1000 * lo = density_floor) by (unfold lo; lra).
  clearbody lo.
  destruct (floor_bounds n lo) as (Hmin & Hval & Hid & Hsat).
  assert (Hpos : 0 < floor n lo) by lra.
  split; [exact Hpos|]. split; [|split; [|split; [|split]]].
  - split; [apply Rdiv_lt_0_compat; assumption|].
    apply (Rmult_le_reg_r (floor n lo)); [exact Hpos|].
    unfold Rdiv. rewrite Rmult_assoc, Rinv_l by lra. lra.
  - intros H. rewrite (Hid H). reflexivity.
  - intros H. rewrite (Hsat H), <- Elo. field. lra.
  - intros H. rewrite Hid by lra.
    apply (Rmult_le_reg_r n); [lra|].
    unfold Rdiv. rewrite Rmult_assoc, Rinv_l by lra. lra.
  - intros n' Hn. apply ratio_antitone; [exact Hd | exact Hpos|].
    apply floor_mono. exact Hn.
Qed.

(** X7 at the default floor [1e-5] and the cell value [3e-9], which is
    below a thousandth of the floor: the coefficient is capped at 1000. *)
Lemma low_n_perp_coefficient_witness :
  1e-5 / floor 3e-9 (1e-3 * 1e-5) = 1000.
Proof.
  destruct (low_n_perp_coefficient 1e-5 3e-9) as (_ & _ & _ & Hcap & _);
    [lra|].
  apply Hcap. lra.
Defined.

(** X8.  [clamp] with [lo <= hi] is a projection onto [[lo, hi]]: clamping
    a clamped field changes nothing, a cell is left as it is exactly
    when its value already lies in the interval, and the clamped value is
    [max(lo, min(x, hi))]. *)
Theorem clamp_projection (N : Field3D) (lo hi : BoutReal) (i j k : Z) :
  lo <= hi ->
  clamp (clamp N lo hi) lo hi i j k = clamp N lo hi i j k /\
  (clamp N lo hi i j k = N i j k <-> lo <= N i j k <= hi) /\
  clamp N lo hi i j k = Rmax lo (Rmin (N i j k) hi).
Proof.
  intros Hle. unfold clamp.
  pose proof (clamp_cell_bounds lo hi Hle (N i j k)) as Hb.
  split; [|split].
  - apply clamp_cell_id. exact Hb.
  - split; [intros <-; exact Hb | apply clamp_cell_id].
  - unfold clamp_cell, Rmax, Rmin.
    destruct (Rlt_dec (N i j k) lo), (Rgt_dec (N i j k) hi);
      repeat destruct (Rle_dec _ _); lra.
Qed.

(** X8 with the bounds of the low-density diffusion at the default
    floor: a cell below the lower bound is raised to it, once. *)
Lemma clamp_projection_witness :
  clamp (clamp (F3.const 0) (1e-6 * 1e-5) 1e-5) (1e-6 * 1e-5) 1e-5 0%Z 0%Z 0%Z
  = clamp (F3.const 0) (1e-6 * 1e-5) 1e-5 0%Z 0%Z 0%Z.
Proof.
  apply (clamp_projection (F3.const 0) (1e-6 * 1e-5) 1e-5 0 0 0). lra.
Defined.

(** ** The terms of the density equation *)

Lemma optional_flow_inv `{lib : FieldLib} (state species : Options)
    (flow : option (Field3D * Field3D)) :
  optional_flow state species = Ok flow ->
  (Opt.isSet species "velocity" = true /\
   exists V sound_speed,
     flow = Some (V, sound_speed) /\
     get_Field3D_at species "velocity" = Ok V /\
     typical_wave_speed state species = Ok sound_speed) \/
  (Opt.isSet species "velocity" = false /\ flow = None).
Proof.
  unfold optional_flow. destruct (Opt.isSet species "velocity").
  - destruct (get_Field3D_at species "velocity") as [V|e]; cbn; [|discriminate].
    destruct (typical_wave_speed state species) as [ws|e]; cbn; [|discriminate].
    intros [= <-]. left. split; [reflexivity|].
    exists V, ws. repeat split; reflexivity.
  - intros [= <-]. right. split; reflexivity.
Qed.

Section DensityTerms.

Context `{lib : FieldLib} `{ops : DiffOps}.
Variable coord : Coordinates.

(** X9.  Every term of [EvolveDensity::finally].  When the entries it
    reads are readable, [finally] completes; [N] becomes the published
    density; [Sn] is the configured source plus the published
    [density_source], if any; and [ddt(N)] is, cell by cell: minus the
    ExB divergence when [fields.phi] is set; minus [FV::Div_par] when a
    velocity is set, with the wave speed scaled by [sqrt(Me/Mp)] when
    [fields.phi] is set; plus the low-density parallel diffusion when
    [low_n_diffuse]; plus the low-density perpendicular diffusion when
    [low_n_diffuse_perp]; minus [hyper_z * dz^4 * D4DZ4(N)] when
    [hyper_z > 0]; plus [Sn].  In logarithmic mode [ddt(logN)] is
    [ddt(N) / N]; otherwise it is left alone. *)
Theorem finally_density_terms (self : EvolveDensity.t) (state species : Options)
    (n : Field3D) (potential : option Field3D)
    (flow : option (Field3D * Field3D)) (extra : option Field3D) :
  species_of state (EvolveDensity.name self) = Ok species ->
  get_Field3D_at species "density" = Ok n ->
  optional_phi state = Ok potential ->
  optional_flow state species = Ok flow ->
  optional_field species "density_source" = Ok extra ->
  exists self',
    EvolveDensity.finally coord self state = Ok self' /\
    EvolveDensity.N self' = n /\
    (forall i j k,
       EvolveDensity.Sn self' i j k
       = EvolveDensity.source self i j k
         + match extra with Some e => e i j k | None => 0 end) /\
    (forall i j k,
       EvolveDensity.ddt_N self' i j k
       = match potential with
         | Some phi =>
             - Div_n_bxGrad_f_B_XPPM n phi (EvolveDensity.bndry_flux self)
                 (EvolveDensity.poloidal_flows self) true i j k
         | None => 0
         end
         - match flow with
           | Some (V, sound_speed) =>
               Div_par n V
                 (match potential with
                  | Some _ => F3.scale (sqrt (SI_Me / SI_Mp)) sound_speed
                  | None => sound_speed
                  end) i j k
           | None => 0
           end
         + (if EvolveDensity.low_n_diffuse self
            then Div_par_K_Grad_par
                   (EvolveDensity.low_n_coefficient coord
                      (EvolveDensity.density_floor self) n) n i j k
            else 0)
         + (if EvolveDensity.low_n_diffuse_perp self
            then Div_Perp_Lap_FV_Index
                   (F3.rdiv (EvolveDensity.density_floor self)
                      (fun i j k =>
                         floor (n i j k)
                           (1e-3 * EvolveDensity.density_floor self)))
                   n (EvolveDensity.bndry_flux self) i j k
            else 0)
         - (if Rgt_dec (EvolveDensity.hyper_z self) 0
            then EvolveDensity.hyper_z self * SQ (SQ (dz coord i j))
                 * D4DZ4 n i j k
            else 0)
         + EvolveDensity.Sn self' i j k) /\
    (forall i j k,
       EvolveDensity.ddt_logN self' i j k
       = if EvolveDensity.evolve_log self
         then EvolveDensity.ddt_N self' i j k / n i j k
         else EvolveDensity.ddt_logN self i j k).
Proof using Type.
  intros Hsp Hn Hphi Hflow Hsrc.
  unfold EvolveDensity.finally.
  rewrite Hsp; run_binds. rewrite Hn; run_binds.
  apply optional_phi_inv in Hphi
    as [(Hset & phi & -> & Hget) | (Hset & ->)];
    rewrite Hset; rewrite ?Hget; run_binds;
    apply optional_flow_inv in Hflow
      as [(Hv & V & ws & -> & HV & Hws) | (Hv & ->)];
    rewrite Hv; rewrite ?HV; run_binds; rewrite ?Hws; run_binds;
    apply optional_field_inv in Hsrc
      as [(Hsset & e & -> & Hsget) | (Hsset & ->)];
    rewrite Hsset; rewrite ?Hsget; run_binds;
    (eexists; split; [reflexivity|]);
    cbn [EvolveDensity.N EvolveDensity.Sn EvolveDensity.ddt_N
         EvolveDensity.ddt_logN EvolveDensity.with_ddt];
    (split; [reflexivity|]);
    (split; [intros i j k; unfold F3.add, F3.const; lra|]);
    (split; intros i j k;
       [destruct (EvolveDensity.low_n_diffuse self),
          (EvolveDensity.low_n_diffuse_perp self),
          (Rgt_dec (EvolveDensity.hyper_z self) 0);
        unfold F3.add, F3.sub, F3.neg, F3.const, F3.mul2; lra
       | destruct (EvolveDensity.evolve_log self); reflexivity]).
Qed.

(** X10.  What the density component cannot do without.  [finally] fails
    when the species has no density published, and, when a velocity is
    set, also when neither a [sound_speed] nor a species temperature is
    set; the velocity itself is optional. *)
Theorem finally_density_required (self : EvolveDensity.t) (state : Options) :
  (published state (EvolveDensity.name self) "density" = false ->
   is_Err (EvolveDensity.finally coord self state)) /\
  (published state (EvolveDensity.name self) "velocity" = true ->
   Opt.isSet state "sound_speed" = false ->
   published state (EvolveDensity.name self) "temperature" = false ->
   is_Err (EvolveDensity.finally coord self state)).
Proof using Type.
  unfold published, EvolveDensity.finally. split.
  - destruct (species_of state _) as [sp|e]; [|intros _; exact I].
    intros Hunset. run_binds.
    apply is_Err_bind, get_unset_const, Hunset.
  - destruct (species_of state _) as [sp|e]; [|discriminate].
    intros Hv Hspeed Hunset. run_binds.
    destruct (get_Field3D_at sp "density") as [n|e]; [|exact I]. run_binds.
    destruct (phi_is_set state) as [[|]|e]; [| |exact I]; run_binds;
      [destruct (get_phi state) as [phi|e]; [|exact I]; run_binds|];
      rewrite Hv;
      apply is_Err_bind;
      (destruct (get_Field3D_at sp "velocity") as [V|e]; [|exact I]); run_binds;
      apply is_Err_bind; unfold typical_wave_speed; rewrite Hspeed;
      apply is_Err_bind, get_unset_const, Hunset.
Qed.

End DensityTerms.

(** X9 on a state in which species ["e"] publishes density, velocity,
    temperature and a density source 7: the recorded source is the
    configured 3 plus the published 7. *)
Lemma finally_density_terms_witness :
  exists self',
    @EvolveDensity.finally (checked_lib (fun _ _ => true)) sample_ops
      sample_coord sample_density
      (state_with [] [field_entry "density" (F3.const 2);
                      field_entry "velocity" (F3.const 1);
                      field_entry "temperature" (F3.const 4);
                      field_entry "density_source" (F3.const 7)]) = Ok self' /\
    forall i j k, EvolveDensity.Sn self' i j k = 3 + 7.
Proof.
  destruct (@finally_density_terms (checked_lib (fun _ _ => true)) sample_ops
              sample_coord sample_density
              (state_with [] [field_entry "density" (F3.const 2);
                              field_entry "velocity" (F3.const 1);
                              field_entry "temperature" (F3.const 4);
                              field_entry "density_source" (F3.const 7)])
              (OptSection (list_to_map
                 [field_entry "density" (F3.const 2);
                  field_entry "velocity" (F3.const 1);
                  field_entry "temperature" (F3.const 4);
                  field_entry "density_source" (F3.const 7)]))
              (F3.const 2) None
              (Some (F3.const 1, F3.sqrt (F3.const 4))) (Some (F3.const 7))
              eq_refl eq_refl eq_refl eq_refl eq_refl)
    as (self' & Hrun & _ & HSn & _).
  exists self'. split; [exact Hrun | exact HSn].
Defined.

(** X10 on a state in which species ["e"] publishes a density and a
    velocity, with no temperature and no sound speed anywhere. *)
Lemma finally_density_required_witness :
  is_Err (@EvolveDensity.finally (checked_lib (fun _ _ => true)) sample_ops
            sample_coord sample_density
            (state_with [] [field_entry "density" (F3.const 2);
                            field_entry "velocity" (F3.const 1)])).
Proof.
  destruct (@finally_density_required (checked_lib (fun _ _ => true)) sample_ops
              sample_coord sample_density
              (state_with [] [field_entry "density" (F3.const 2);
                              field_entry "velocity" (F3.const 1)]))
    as [_ Hflow].
  apply Hflow; reflexivity.
Defined.

(** ** What [transform] publishes *)

Lemma children_put (o c : Options) (key key' : string) :
  Opt.children (Opt.put o key c) !! key'
  = if decide (key = key') then Some c else Opt.children o !! key'.
Proof.
  unfold Opt.put. cbn [Opt.children]. apply lookup_insert.
Qed.

Section DensityTransform.

Context `{lib : FieldLib} `{ops : DiffOps}.

(** The density that [transform] works with: [exp(logN)] in logarithmic
    mode, [N] otherwise, after the guard-cell exchange. *)
Lemma transform_N (self : EvolveDensity.t) (state : Options) :
  EvolveDensity.N (EvolveDensity.transform self state).1
  = communicate (if EvolveDensity.evolve_log self
                 then F3.exp (EvolveDensity.logN self)
                 else EvolveDensity.N self).
Proof using Type. reflexivity. Qed.

Lemma transform_species (self : EvolveDensity.t) (state : Options) :
  species_of (EvolveDensity.transform self state).2 (EvolveDensity.name self)
  = Ok (let species :=
          Opt.at_mut (Opt.at_mut state "species") (EvolveDensity.name self) in
        let species :=
          set_BoutReal
            (set_Field3D species "density"
               (EvolveDensity.N (EvolveDensity.transform self state).1))
            "AA" (EvolveDensity.AA self) in
        if Req_dec_T (EvolveDensity.charge self) 0 then species
        else set_BoutReal species "charge" (EvolveDensity.charge self)).
Proof using Type.
  unfold species_of, EvolveDensity.transform. cbn [fst snd].
  rewrite at_const_put_same. run_binds. rewrite at_const_put_same.
  reflexivity.
Qed.

(** X11.  After [EvolveDensity::transform] the species section of the
    state holds the communicated density under ["density"] and the atomic
    mass under ["AA"]; it holds the charge under ["charge"] when the
    charge is not zero, and for a neutral species the ["charge"] entry is
    whatever it was before.  The component's own [N] is the published
    density. *)
Theorem transform_publishes (self : EvolveDensity.t) (state : Options) :
  let after := EvolveDensity.transform self state in
  let before :=
    Opt.at_mut (Opt.at_mut state "species") (EvolveDensity.name self) in
  exists species,
    species_of after.2 (EvolveDensity.name self) = Ok species /\
    get_Field3D_at species "density" = Ok (EvolveDensity.N after.1) /\
    Opt.at_const species "AA" = Ok (OptValue (VBoutReal (EvolveDensity.AA self))) /\
    (EvolveDensity.charge self <> 0 ->
     Opt.at_const species "charge"
     = Ok (OptValue (VBoutReal (EvolveDensity.charge self)))) /\
    (EvolveDensity.charge self = 0 ->
     Opt.children species !! "charge" = Opt.children before !! "charge").
Proof using Type.
  intros after before. eexists. split; [apply transform_species|].
  cbv zeta. fold before. unfold set_Field3D, set_BoutReal, get_Field3D_at.
  destruct (Req_dec_T (EvolveDensity.charge self) 0) as [Hzero | Hcharged].
  - repeat split.
    + unfold Opt.at_const. rewrite !children_put. cbn. reflexivity.
    + unfold Opt.at_const. rewrite !children_put. cbn. reflexivity.
    + intros Hne. contradiction.
    + intros _. rewrite !children_put. cbn. reflexivity.
  - repeat split.
    + unfold Opt.at_const. rewrite !children_put. cbn. reflexivity.
    + unfold Opt.at_const. rewrite !children_put. cbn. reflexivity.
    + intros _. unfold Opt.at_const. rewrite !children_put. cbn. reflexivity.
    + intros Hz. contradiction.
Qed.

(** X12.  [EvolveDensity::transform] writes nothing else: every top-level
    entry of the state other than ["species"], every other species, and
    every entry of its own species other than ["density"], ["AA"] and
    ["charge"] is after the call what it was before.  In particular a
    velocity or a source that another component has already published
    for the species survives. *)
Theorem transform_frame (self : EvolveDensity.t) (state : Options) :
  let after := (EvolveDensity.transform self state).2 in
  (forall key, key <> "species" ->
     Opt.children after !! key = Opt.children state !! key) /\
  (forall other, other <> EvolveDensity.name self ->
     Opt.children (Opt.at_mut after "species") !! other
     = Opt.children (Opt.at_mut state "species") !! other) /\
  (forall key, key <> "density" -> key <> "AA" -> key <> "charge" ->
     Opt.children
       (Opt.at_mut (Opt.at_mut after "species") (EvolveDensity.name self)) !! key
     = Opt.children
         (Opt.at_mut (Opt.at_mut state "species") (EvolveDensity.name self)) !! key).
Proof using Type.
  intros after. unfold after, EvolveDensity.transform. cbn [snd].
  split; [|split].
  - intros key Hkey. rewrite children_put.
    destruct (decide ("species" = key)) as [E|_]; [congruence | reflexivity].
  - intros other Hother. rewrite at_mut_put_same, children_put.
    destruct (decide (EvolveDensity.name self = other)) as [E|_];
      [congruence | reflexivity].
  - intros key H1 H2 H3. rewrite !at_mut_put_same.
    unfold set_Field3D, set_BoutReal.
    destruct (Req_dec_T (EvolveDensity.charge self) 0);
      rewrite !children_put;
      repeat (destruct (decide _) as [E|_]; [congruence|]); reflexivity.
Qed.

End DensityTransform.

(** ** From [transform] to [finally] *)

(** Takes apart a successful run of binds in a hypothesis. *)
Ltac invert_binds H :=
  repeat match type of H with
    | (Ok _ ≫= _) = Ok _ => rewrite bind_Ok in H; cbn beta iota in H
    | (?m ≫= _) = Ok _ =>
        let E := fresh "E" in destruct m eqn:E; [|discriminate H]
    end.

Lemma get_Field3D_at_mut_inv (o : Options) (key : string) (f : Field3D) :
  get_Field3D (Opt.at_mut o key) = Ok f ->
  Opt.children o !! key = Some (OptValue (VField3D f)).
Proof.
  unfold Opt.at_mut.
  destruct (Opt.children o !! key) as [[[g|r]|ch]|]; cbn; try discriminate.
  intros [= ->]. reflexivity.
Qed.

Lemma get_BoutReal_at_mut_inv (o : Options) (key : string) (r : BoutReal) :
  get_BoutReal (Opt.at_mut o key) = Ok r ->
  Opt.children o !! key = Some (OptValue (VBoutReal r)).
Proof.
  unfold Opt.at_mut.
  destruct (Opt.children o !! key) as [[[g|r']|ch]|]; cbn; try discriminate.
  intros [= ->]. reflexivity.
Qed.

Section DensityRoundTrip.

Context `{lib : FieldLib} `{ops : DiffOps}.
Variable coord : Coordinates.

Lemma finally_reads_density (self self' : EvolveDensity.t) (state : Options) :
  EvolveDensity.finally coord self state = Ok self' ->
  exists species,
    species_of state (EvolveDensity.name self) = Ok species /\
    get_Field3D_at species "density" = Ok (EvolveDensity.N self').
Proof using Type.
  intros H. unfold EvolveDensity.finally in H.
  invert_binds H. injection H as <-.
  eexists. split; [first [reflexivity | eassumption]|].
  cbn [EvolveDensity.N EvolveDensity.with_ddt]. eassumption.
Qed.

Lemma transform_density_entry (self : EvolveDensity.t) (state : Options)
    (species : Options) :
  species_of (EvolveDensity.transform self state).2 (EvolveDensity.name self)
    = Ok species ->
  get_Field3D_at species "density"
  = Ok (EvolveDensity.N (EvolveDensity.transform self state).1).
Proof using Type.
  rewrite transform_species. intros [= <-].
  unfold set_Field3D, set_BoutReal, get_Field3D_at, Opt.at_const.
  destruct (Req_dec_T (EvolveDensity.charge self) 0);
    rewrite !children_put; cbn; reflexivity.
Qed.

(** X13.  The density makes the round trip through the state.  After its
    own [transform] the component's [finally] cannot fail for lack of a
    density, and whenever it completes, the [N] it has read back is the
    [N] that [transform] published. *)
Theorem transform_then_finally (self : EvolveDensity.t) (state : Options) :
  let after := EvolveDensity.transform self state in
  published after.2 (EvolveDensity.name self) "density" = true /\
  forall self',
    EvolveDensity.finally coord after.1 after.2 = Ok self' ->
    EvolveDensity.N self' = EvolveDensity.N after.1.
Proof using Type.
  intros after. split.
  - unfold published, after. rewrite transform_species.
    unfold set_Field3D, set_BoutReal, Opt.isSet.
    destruct (Req_dec_T (EvolveDensity.charge self) 0);
      rewrite !children_put; cbn; reflexivity.
  - intros self' Hrun.
    apply finally_reads_density in Hrun as (species & Hsp & Hn).
    change (EvolveDensity.name after.1) with (EvolveDensity.name self) in Hsp.
    pose proof (transform_density_entry self state species Hsp) as Hn'.
    rewrite Hn in Hn'. injection Hn' as ->. reflexivity.
Qed.

End DensityRoundTrip.

Lemma sample_transform_species :
  species_of
    (@EvolveDensity.transform (checked_lib (fun _ _ => true))
       sample_density Opt.fresh).2 "e"
  = Ok (set_BoutReal
          (set_BoutReal (set_Field3D Opt.fresh "density" (F3.const 1))
             "AA" (1 / 1836))
          "charge" (-1)).
Proof.
  pose proof (@transform_species (checked_lib (fun _ _ => true))
                sample_density Opt.fresh) as H.
  cbv zeta in H. etransitivity; [exact H|]. clear H.
  destruct (Req_dec_T (EvolveDensity.charge sample_density) 0) as [Hz|_];
    [cbn in Hz; exfalso; lra | reflexivity].
Qed.

(** X13 on the empty state: the sample component publishes its uniform
    density 1, and [finally] reads it back. *)
Lemma transform_then_finally_witness :
  let after :=
    @EvolveDensity.transform (checked_lib (fun _ _ => true))
      sample_density Opt.fresh in
  exists self',
    @EvolveDensity.finally (checked_lib (fun _ _ => true)) sample_ops
      sample_coord after.1 after.2 = Ok self' /\
    EvolveDensity.N self' = F3.const 1.
Proof.
  intros after.
  assert (Hrun : exists self',
             @EvolveDensity.finally (checked_lib (fun _ _ => true)) sample_ops
               sample_coord after.1 after.2 = Ok self').
  { unfold EvolveDensity.finally.
    change (EvolveDensity.name after.1) with "e".
    unfold after. rewrite sample_transform_species. run_binds.
    eexists. reflexivity. }
  destruct Hrun as [self' Hrun]. exists self'. split; [exact Hrun|].
  exact (proj2 (@transform_then_finally (checked_lib (fun _ _ => true))
                  sample_ops sample_coord sample_density Opt.fresh)
           self' Hrun).
Defined.

(** ** What the momentum component publishes *)

Lemma at_const_put_other (o c : Options) (key key' : string) :
  key <> key' -> Opt.at_const (Opt.put o key c) key' = Opt.at_const o key'.
Proof.
  intros Hne. unfold Opt.at_const, Opt.put. cbn [Opt.children].
  rewrite lookup_insert_ne by exact Hne. reflexivity.
Qed.

Section MomentumTransform.

Context `{lib : FieldLib}.

(** X14.  Whenever [EvolveMomentum::transform] completes, the species
    section holds the communicated momentum under ["momentum"] and a
    velocity under ["velocity"], next to the density and atomic mass it
    has read; the component's [NV] is the communicated field; and the
    published velocity gives the momentum back: [AA * N * V = NV] in
    every cell where [AA * N] is not zero. *)
Theorem momentum_transform_publishes (self self' : EvolveMomentum.t)
    (state state' : Options) :
  EvolveMomentum.transform self state = Ok (self', state') ->
  EvolveMomentum.NV self' = communicate (EvolveMomentum.NV self) /\
  exists species n AA V,
    species_of state' (EvolveMomentum.name self) = Ok species /\
    get_Field3D_at species "density" = Ok n /\
    Opt.at_const species "AA" = Ok (OptValue (VBoutReal AA)) /\
    get_Field3D_at species "momentum" = Ok (EvolveMomentum.NV self') /\
    get_Field3D_at species "velocity" = Ok V /\
    forall i j k,
      AA * n i j k <> 0 ->
      AA * n i j k * V i j k = EvolveMomentum.NV self' i j k.
Proof using Type.
  intros H. unfold EvolveMomentum.transform in H.
  destruct (get_Field3D _) as [n|e] eqn:Hn in H; [|discriminate H].
  rewrite bind_Ok in H.
  destruct (get_BoutReal _) as [AA|e] eqn:HAA in H; [|discriminate H].
  rewrite bind_Ok in H. injection H as <- <-.
  unfold set_Field3D in *.
  rewrite at_mut_put_other in Hn, HAA by discriminate.
  apply get_Field3D_at_mut_inv in Hn. apply get_BoutReal_at_mut_inv in HAA.
  split; [reflexivity|].
  eexists _, n, AA, _. split; [|split; [|split; [|split; [|split]]]].
  - unfold species_of. rewrite at_const_put_same. run_binds.
    apply at_const_put_same.
  - unfold get_Field3D_at. rewrite !at_const_put_other by discriminate.
    unfold Opt.at_const. rewrite Hn. reflexivity.
  - rewrite !at_const_put_other by discriminate.
    unfold Opt.at_const. rewrite HAA. reflexivity.
  - unfold get_Field3D_at.
    rewrite at_const_put_other by discriminate.
    rewrite at_const_put_same. reflexivity.
  - unfold get_Field3D_at. rewrite at_const_put_same. reflexivity.
  - intros i j k Hnz. cbn [EvolveMomentum.NV].
    unfold F3.div, F3.scale. field.
    split; intros Hz; apply Hnz; rewrite Hz; ring.
Qed.

End MomentumTransform.

(** X14 on a state in which species ["e"] has density 3 and atomic mass
    2, for a component whose momentum is 6 everywhere. *)
Lemma momentum_transform_publishes_witness :
  exists self' state',
    @EvolveMomentum.transform (checked_lib (fun _ _ => true))
      (EvolveMomentum.mk "e" true true (F3.const 6) (F3.const 0))
      (state_with [] [field_entry "density" (F3.const 3);
                      ("AA", OptValue (VBoutReal 2))])
    = Ok (self', state') /\
    EvolveMomentum.NV self' = F3.const 6.
Proof.
  assert (Hrun : exists self' state',
             @EvolveMomentum.transform (checked_lib (fun _ _ => true))
               (EvolveMomentum.mk "e" true true (F3.const 6) (F3.const 0))
               (state_with [] [field_entry "density" (F3.const 3);
                               ("AA", OptValue (VBoutReal 2))])
             = Ok (self', state'))
    by (eexists; eexists; reflexivity).
  destruct Hrun as (self' & state' & Hrun).
  exists self', state'. split; [exact Hrun|].
  exact (proj1 (@momentum_transform_publishes (checked_lib (fun _ _ => true))
                  _ self' _ state' Hrun)).
Defined.

(** X15 on the empty state, for the sample components of species ["e"]. *)
Lemma momentum_transform_after_density_witness :
  exists momentum' state' species,
    @EvolveMomentum.transform (checked_lib (fun _ _ => true)) sample_momentum
      (@EvolveDensity.transform (checked_lib (fun _ _ => true))
         sample_density Opt.fresh).2
    = Ok (momentum', state') /\
    species_of state' "e" = Ok species /\
    get_Field3D_at species "velocity"
    = Ok (F3.div (F3.const 0) (F3.scale (1 / 1836) (F3.const 1))).
Proof.
  apply (@momentum_transform_after_density (checked_lib (fun _ _ => true))
           sample_density sample_momentum Opt.fresh).
  reflexivity.
Defined.

(** ** A fluid at rest, and incompatible fields *)


Section MomentumRest.

Context `{limiter : CellEdges} `{lib : FieldLib} `{ops : DiffOps}.
Variable mesh : Mesh.
Variable coord : Coordinates.

(** X16.  A fluid at rest is moved by forces only.  When the published
    velocity is zero in every cell, the self-advection term of
    [EvolveMomentum::finally] vanishes in the interior, and [ddt(NV)] is
    there the ExB term (when [fields.phi] is set) minus the pressure
    gradient (when a pressure is published) plus the momentum source
    (when one is published).  Limiter and transforms are assumed to take
    zero to zero, and the fields to pass the assertions when enabled. *)
Theorem finally_momentum_at_rest (self : EvolveMomentum.t)
    (state species : Options)
    (potential pressure momentum_source : option Field3D)
    (n V wave_speed : Field3D) :
  species_of state (EvolveMomentum.name self) = Ok species ->
  optional_phi state = Ok potential ->
  get_Field3D_at species "density" = Ok n ->
  get_Field3D_at species "velocity" = Ok V ->
  (forall i j k, V i j k = 0) ->
  typical_wave_speed state species = Ok wave_speed ->
  limiter_keeps_zero ->
  transforms_keep_zero mesh ->
  ((1 <= CHECK)%Z ->
   areFieldsCompatible n V = true /\ areFieldsCompatible n wave_speed = true) ->
  optional_field species "pressure" = Ok pressure ->
  optional_field species "momentum_source" = Ok momentum_source ->
  exists self',
    EvolveMomentum.finally mesh coord self state = Ok self' /\
    forall i j k,
      in_RGN_NOBNDRY mesh i j k ->
      EvolveMomentum.ddt_NV self' i j k =
      match potential with
      | Some phi =>
          - Div_n_bxGrad_f_B_XPPM (EvolveMomentum.NV self) phi
              (EvolveMomentum.bndry_flux self)
              (EvolveMomentum.poloidal_flows self) true i j k
      | None => 0
      end
      - match pressure with
        | Some P => Grad_par P i j k
        | None => 0
        end
      + match momentum_source with
        | Some extra => extra i j k
        | None => 0
        end.
Proof using Type.
  intros Hsp Hphi Hn HV Hrest Hws Hlim [Hto Hfrom] Hcompat HP HS.
  assert (Hadv : exists advection,
             FV.Div_par_fvv mesh coord n V wave_speed false = Ok advection /\
             forall i j k, in_RGN_NOBNDRY mesh i j k -> advection i j k = 0).
  { eexists. split.
    - unfold FV.Div_par_fvv, ASSERT1.
      destruct (1 <=? CHECK)%Z eqn:Hcheck; [|reflexivity].
      apply Z.leb_le in Hcheck. destruct (Hcompat Hcheck) as [-> ->].
      reflexivity.
    - intros i j k Hin. apply Hfrom; [|exact Hin].
      apply flux_loops_zero_velocity; [exact Hlim|].
      intros i' j' k' Hi'. apply Hto; [exact Hrest | exact Hi']. }
  destruct Hadv as (advection & Hadv & Hzero).
  unfold EvolveMomentum.finally.
  rewrite Hsp. run_binds.
  apply optional_phi_inv in Hphi
    as [(Hset & phi & -> & Hget) | (Hset & ->)];
    rewrite Hset; rewrite ?Hget; run_binds;
    rewrite Hn; run_binds; rewrite HV; run_binds;
    rewrite Hws; run_binds; rewrite Hadv; run_binds;
    apply optional_field_inv in HP
      as [(HPset & P & -> & HPget) | (HPset & ->)];
    rewrite HPset; rewrite ?HPget; run_binds;
    apply optional_field_inv in HS
      as [(HSset & extra & -> & HSget) | (HSset & ->)];
    rewrite HSset; rewrite ?HSget; run_binds;
    (eexists; split; [reflexivity|]);
    intros i j k Hin; cbn [EvolveMomentum.ddt_NV];
    unfold F3.add, F3.sub, F3.neg, F3.const;
    rewrite (Hzero i j k Hin); lra.
Qed.


End MomentumRest.

(** X16 on a state in which species ["e"] is at rest with density 1,
    temperature 1 and pressure 5: in the interior the derivative is minus
    the (sample) pressure gradient. *)
Lemma finally_momentum_at_rest_witness :
  exists self',
    @EvolveMomentum.finally MC (checked_lib (fun _ _ => true)) sample_ops
      sample_mesh sample_coord sample_momentum
      (state_with [] [field_entry "density" (F3.const 1);
                      field_entry "velocity" (F3.const 0);
                      field_entry "temperature" (F3.const 1);
                      field_entry "pressure" (F3.const 5)]) = Ok self' /\
    forall i j k,
      in_RGN_NOBNDRY sample_mesh i j k ->
      EvolveMomentum.ddt_NV self' i j k = 0 - 5 + 0.
Proof.
  apply (@finally_momentum_at_rest MC (checked_lib (fun _ _ => true)) sample_ops
           sample_mesh sample_coord sample_momentum _
           (OptSection (list_to_map
              [field_entry "density" (F3.const 1);
               field_entry "velocity" (F3.const 0);
               field_entry "temperature" (F3.const 1);
               field_entry "pressure" (F3.const 5)]))
           None (Some (F3.const 5)) None
           (F3.const 1) (F3.const 0) (F3.sqrt (F3.const 1)));
    try reflexivity.
  - exact MC_keeps_zero.
  - split; intros g Hg i j k _; apply Hg.
  - intros _. split; reflexivity.
Defined.


(** ** A supplied sound speed *)

Lemma species_of_put_other (state c : Options) (key name : string) :
  key <> "species" ->
  species_of (Opt.put state key c) name = species_of state name.
Proof.
  intros Hne. unfold species_of.
  rewrite at_const_put_other by exact Hne. reflexivity.
Qed.

Lemma isSection_put_other (o c : Options) (key key' : string) :
  key <> key' -> Opt.isSection (Opt.put o key c) key' = Opt.isSection o key'.
Proof.
  intros Hne. unfold Opt.isSection, Opt.put. cbn [Opt.children].
  rewrite lookup_insert_ne by exact Hne. reflexivity.
Qed.

Lemma phi_is_set_put_other (state c : Options) (key : string) :
  key <> "fields" -> phi_is_set (Opt.put state key c) = phi_is_set state.
Proof.
  intros Hne. unfold phi_is_set.
  rewrite isSection_put_other, at_const_put_other by exact Hne. reflexivity.
Qed.

Lemma get_phi_put_other (state c : Options) (key : string) :
  key <> "fields" -> get_phi (Opt.put state key c) = get_phi state.
Proof.
  intros Hne. unfold get_phi.
  rewrite at_const_put_other by exact Hne. reflexivity.
Qed.

Lemma reads_past_sound_speed (state : Options) (cs : Field3D) (name : string) :
  species_of (set_Field3D state "sound_speed" cs) name = species_of state name /\
  phi_is_set (set_Field3D state "sound_speed" cs) = phi_is_set state /\
  get_phi (set_Field3D state "sound_speed" cs) = get_phi state.
Proof.
  unfold set_Field3D. split; [|split].
  - apply species_of_put_other. discriminate.
  - apply phi_is_set_put_other. discriminate.
  - apply get_phi_put_other. discriminate.
Qed.

Lemma typical_wave_speed_put `{lib : FieldLib} (state species : Options)
    (cs : Field3D) :
  typical_wave_speed (set_Field3D state "sound_speed" cs) species
  = Ok Field3D_unassigned.
Proof.
  unfold typical_wave_speed, set_Field3D, get_Field3D_at.
  rewrite isSet_put_value, at_const_put_same. reflexivity.
Qed.

Section SuppliedSoundSpeed.

Context `{limiter : CellEdges} `{lib : FieldLib} `{ops : DiffOps}.
Variable mesh : Mesh.
Variable coord : Coordinates.

(** X18.  [EvolveMomentum::finally] declares a second variable named
    [sound_speed] inside the branch that reads [state["sound_speed"]], so
    the field it reads there never reaches [FV::Div_par_fvv]: two states
    that differ only in the sound-speed field they supply give the same
    outcome, the same [ddt(NV)] or the same failure. *)
Theorem finally_momentum_ignores_sound_speed (self : EvolveMomentum.t)
    (state : Options) (cs1 cs2 : Field3D) :
  EvolveMomentum.finally mesh coord self (set_Field3D state "sound_speed" cs1)
  = EvolveMomentum.finally mesh coord self (set_Field3D state "sound_speed" cs2).
Proof using Type.
  unfold EvolveMomentum.finally.
  destruct (reads_past_sound_speed state cs1 (EvolveMomentum.name self))
    as (-> & -> & ->).
  destruct (reads_past_sound_speed state cs2 (EvolveMomentum.name self))
    as (-> & -> & ->).
  destruct (species_of state _) as [species|e]; [|reflexivity]. run_binds.
  destruct (phi_is_set state) as [[|]|e]; [| |reflexivity]; run_binds;
    [destruct (get_phi state) as [phi|e]; [|reflexivity]; run_binds|];
    (destruct (get_Field3D_at species "density") as [n|e]; [|reflexivity]);
    run_binds;
    (destruct (get_Field3D_at species "velocity") as [V|e]; [|reflexivity]);
    run_binds;
    rewrite !typical_wave_speed_put; reflexivity.
Qed.

End SuppliedSoundSpeed.

(** ** Construction *)

Lemma string_not_own_tail (c : Ascii.ascii) (s : string) : s <> String c s.
Proof.
  induction s as [|c' s IH]; [discriminate|].
  intros [= -> H]. exact (IH H).
Qed.

Section Construction.

Context `{lib : FieldLib} `{ops : DiffOps} `{framework : Framework}.

(** X19.  Logarithmic mode, fresh start.  When [evolve_log] is on and the
    run is not restarting, the constructor takes [N] from the initial
    profile and sets [logN = log(N)]; where that profile is positive, the
    [exp(logN)] from which [transform] rebuilds the density is the
    initial profile again, cell by cell. *)
Theorem construct_log_round_trip (name : string) (alloptions : Config) :
  option_bool alloptions [name; "evolve_log"] false = true ->
  option_flag alloptions ["hermes"; "restarting"] = false ->
  (forall i j k, 0 < initial_profile ("N" +:+ name) i j k) ->
  let self := (Construct.EvolveDensity name alloptions).1 in
  EvolveDensity.evolve_log self = true /\
  EvolveDensity.N self = initial_profile ("N" +:+ name) /\
  (forall i j k,
     F3.exp (EvolveDensity.logN self) i j k
     = initial_profile ("N" +:+ name) i j k) /\
  (forall state,
     EvolveDensity.N (EvolveDensity.transform self state).1
     = communicate (F3.exp (EvolveDensity.logN self))).
Proof using Type.
  intros Hlog Hfresh Hpos self.
  unfold self, Construct.EvolveDensity. rewrite Hlog, Hfresh.
  cbn [negb fst EvolveDensity.evolve_log EvolveDensity.N EvolveDensity.logN].
  destruct (option_bool alloptions [name; "diagnose"] false);
    cbn [fst EvolveDensity.evolve_log EvolveDensity.N EvolveDensity.logN];
    (split; [reflexivity|]); (split; [reflexivity|]); split.
  - intros i j k. unfold F3.exp, F3.log. apply exp_ln, Hpos.
  - intros state. unfold EvolveDensity.transform.
    cbn [fst EvolveDensity.evolve_log EvolveDensity.N EvolveDensity.logN
         EvolveDensity.with_N].
    reflexivity.
  - intros i j k. unfold F3.exp, F3.log. apply exp_ln, Hpos.
  - intros state. unfold EvolveDensity.transform.
    cbn [fst EvolveDensity.evolve_log EvolveDensity.N EvolveDensity.logN
         EvolveDensity.with_N].
    reflexivity.
Qed.


(** X21.  [hyper_z] is read as a switch and stored as a number, so a
    constructed component carries 0 or 1: the hyperdiffusion term of
    [finally] is either absent or has the coefficient [dz^4] exactly. *)
Theorem construct_hyper_z_switch (name : string) (alloptions : Config)
    (dz4 d4 : BoutReal) :
  let self := (Construct.EvolveDensity name alloptions).1 in
  let switch := option_bool alloptions [name; "hyper_z"] false in
  (EvolveDensity.hyper_z self = 0 \/ EvolveDensity.hyper_z self = 1) /\
  (if Rgt_dec (EvolveDensity.hyper_z self) 0
   then EvolveDensity.hyper_z self * dz4 * d4
   else 0)
  = (if switch then dz4 * d4 else 0).
Proof using Type.
  intros self switch.
  assert (Hz : EvolveDensity.hyper_z self = bool_to_BoutReal switch).
  { unfold self, Construct.EvolveDensity.
    destruct (option_bool alloptions [name; "evolve_log"] false),
      (negb (option_flag alloptions ["hermes"; "restarting"])),
      (option_bool alloptions [name; "diagnose"] false); reflexivity. }
  rewrite Hz. unfold bool_to_BoutReal.
  destruct switch; (split; [auto|]);
    destruct (Rgt_dec _ 0); lra.
Qed.

(** X22.  The two components of one species never register the same
    variable with the solver: [NV<name>] differs from [N<name>] and from
    [logN<name>]. *)
Theorem construct_distinct_variables (name : string) (alloptions : Config)
    (x : string) :
  SolverAdd x ∈ (Construct.EvolveDensity name alloptions).2 ->
  SolverAdd x ∉ (Construct.EvolveMomentum name alloptions).2.
Proof using Type.
  unfold Construct.EvolveDensity, Construct.EvolveMomentum.
  cbn [snd]. rewrite list_elem_of_singleton.
  intros Hin [= ->]. revert Hin.
  destruct (option_bool alloptions [name; "evolve_log"] false),
    (negb (option_flag alloptions ["hermes"; "restarting"])),
    (option_bool alloptions [name; "diagnose"] false);
    cbn [snd app]; rewrite ?elem_of_cons, elem_of_nil;
    intros H; repeat destruct H as [H|H]; try contradiction;
    try discriminate H;
    injection H as H; exact (string_not_own_tail _ _ (eq_sym H)).
Qed.


End Construction.

(** X19 in the sample framework with [evolve_log] switched on for species
    ["e"]: the initial profile is 2, and [exp(logN)] is 2 again. *)
Lemma construct_log_round_trip_witness :
  F3.exp
    (EvolveDensity.logN
       (@Construct.EvolveDensity (checked_lib (fun _ _ => true)) sample_ops
          sample_framework "e" [["e"; "evolve_log"]]).1) 0%Z 0%Z 0%Z
  = 2.
Proof.
  destruct (@construct_log_round_trip (checked_lib (fun _ _ => true)) sample_ops
              sample_framework "e" [["e"; "evolve_log"]])
    as (_ & _ & Hexp & _).
  - reflexivity.
  - reflexivity.
  - intros i j k. change (0 < 2). lra.
  - exact (Hexp 0%Z 0%Z 0%Z).
Defined.


(** X22 for species ["e"] with every option at its default: the density
    component registers ["Ne"], the momentum component does not. *)
Lemma construct_distinct_variables_witness :
  SolverAdd "Ne"
  ∉ (@Construct.EvolveMomentum (checked_lib (fun _ _ => true))
       sample_framework "e" []).2.
Proof.
  apply (@construct_distinct_variables (checked_lib (fun _ _ => true))
           sample_ops sample_framework "e" []).
  change (SolverAdd "Ne" ∈ [SolverAdd "Ne"]).
  apply list_elem_of_singleton. reflexivity.
Defined.


(** X11 on the empty state: the sample component has charge -1, which is
    published. *)
Lemma transform_publishes_witness :
  exists species,
    species_of
      (@EvolveDensity.transform (checked_lib (fun _ _ => true))
         sample_density Opt.fresh).2 "e" = Ok species /\
    Opt.at_const species "charge" = Ok (OptValue (VBoutReal (-1))).
Proof.
  destruct (@transform_publishes (checked_lib (fun _ _ => true))
              sample_density Opt.fresh)
    as (species & Hsp & _ & _ & Hcharge & _).
  exists species. split; [exact Hsp|].
  apply Hcharge. change (-1 <> 0). lra.
Defined.

(** X12 on a state in which a velocity has already been published for
    species ["e"]: it is still there after the density component's
    [transform]. *)
Lemma transform_frame_witness :
  Opt.children
    (Opt.at_mut
       (Opt.at_mut
          (@EvolveDensity.transform (checked_lib (fun _ _ => true))
             sample_density
             (state_with [] [field_entry "velocity" (F3.const 9)])).2
          "species") "e") !! "velocity"
  = Some (OptValue (VField3D (F3.const 9))).
Proof.
  destruct (@transform_frame (checked_lib (fun _ _ => true))
              sample_density
              (state_with [] [field_entry "velocity" (F3.const 9)]))
    as (_ & _ & Hown).
  etransitivity; [apply Hown; discriminate | reflexivity].
Defined.

(** ** Where [fixflux] matters *)

Section FixFlux.

Context `{limiter : CellEdges}.
Variable mesh : Mesh.
Variable coord : Coordinates.

Lemma flux_right_fixflux (f v wave_speed : Field3D) i j k :
  FV.last_point mesh i j = false ->
  FV.flux_right mesh true f v wave_speed i j k
  = FV.flux_right mesh false f v wave_speed i j k.
Proof using Type.
  intros H. unfold FV.flux_right. rewrite H. reflexivity.
Qed.

Lemma flux_left_fixflux (f v wave_speed : Field3D) i j k :
  FV.first_point mesh i j = false ->
  FV.flux_left mesh true f v wave_speed i j k
  = FV.flux_left mesh false f v wave_speed i j k.
Proof using Type.
  intros H. unfold FV.flux_left. rewrite H. reflexivity.
Qed.

Lemma point_tests i j :
  FV.last_point mesh i j = physical_last mesh i && (j =? yend mesh)%Z /\
  FV.first_point mesh i j = physical_first mesh i && (j =? ystart mesh)%Z.
Proof using Type.
  unfold FV.last_point, FV.first_point, physical_last, physical_first.
  split.
  - destruct (lastY mesh i), (j =? yend mesh)%Z, (periodicY mesh i); reflexivity.
  - destruct (firstY mesh i), (j =? ystart mesh)%Z, (periodicY mesh i); reflexivity.
Qed.

(** X24.  [fixflux] only changes the two cells on either side of a
    physical boundary face.  In every other cell, and in every cell of a
    column that has no physical boundary, the result of the loops is the
    same for [fixflux = true] and [fixflux = false]. *)
Theorem flux_loops_fixflux_local (f v wave_speed : Field3D) (i j k : Z) :
  (physical_first mesh i = true -> j <> ystart mesh /\ j <> (ystart mesh - 1)%Z) ->
  (physical_last mesh i = true -> j <> yend mesh /\ j <> (yend mesh + 1)%Z) ->
  FV.flux_loops mesh coord true f v wave_speed i j k
  = FV.flux_loops mesh coord false f v wave_speed i j k.
Proof using Type.
  intros Hfirst Hlast. rewrite !flux_loops_at.
  assert (HR : FV.last_point mesh i j = false).
  { rewrite (proj1 (point_tests i j)).
    destruct (physical_last mesh i); [|reflexivity].
    destruct (Hlast eq_refl) as [H _].
    destruct (Z.eqb_spec j (yend mesh)); [contradiction | reflexivity]. }
  assert (HR' : FV.last_point mesh i (j - 1) = false).
  { rewrite (proj1 (point_tests i (j - 1))).
    destruct (physical_last mesh i); [|reflexivity].
    destruct (Hlast eq_refl) as [_ H].
    destruct (Z.eqb_spec (j - 1) (yend mesh)); [lia | reflexivity]. }
  assert (HL : FV.first_point mesh i j = false).
  { rewrite (proj2 (point_tests i j)).
    destruct (physical_first mesh i); [|reflexivity].
    destruct (Hfirst eq_refl) as [H _].
    destruct (Z.eqb_spec j (ystart mesh)); [contradiction | reflexivity]. }
  assert (HL' : FV.first_point mesh i (j + 1) = false).
  { rewrite (proj2 (point_tests i (j + 1))).
    destruct (physical_first mesh i); [|reflexivity].
    destruct (Hfirst eq_refl) as [_ H].
    destruct (Z.eqb_spec (j + 1) (ystart mesh)); [lia | reflexivity]. }
  rewrite (flux_right_fixflux f v wave_speed i j k HR).
  rewrite (flux_right_fixflux f v wave_speed i (j - 1) k HR').
  rewrite (flux_left_fixflux f v wave_speed i j k HL).
  rewrite (flux_left_fixflux f v wave_speed i (j + 1) k HL').
  reflexivity.
Qed.

End FixFlux.

(** X24 on the sample column: row 3 is next to neither boundary face. *)
Lemma flux_loops_fixflux_local_witness :
  @FV.flux_loops MC sample_mesh sample_coord true
    (F3.const 1) (F3.const 1) (F3.const 1) 2%Z 3%Z 0%Z
  = @FV.flux_loops MC sample_mesh sample_coord false
      (F3.const 1) (F3.const 1) (F3.const 1) 2%Z 3%Z 0%Z.
Proof.
  apply (@flux_loops_fixflux_local MC sample_mesh sample_coord);
    intros _; split; discriminate.
Defined.

(** ** Scaling the advected field *)

Section Homogeneity.

Context `{limiter : CellEdges}.
Variable mesh : Mesh.
Variable coord : Coordinates.

Lemma flux_scaled (a : BoutReal) fixflux (f v wave_speed : Field3D) i j k :
  limiter_homogeneous ->
  FV.flux_right mesh fixflux (F3.scale a f) v wave_speed i j k
  = a * FV.flux_right mesh fixflux f v wave_speed i j k /\
  FV.flux_left mesh fixflux (F3.scale a f) v wave_speed i j k
  = a * FV.flux_left mesh fixflux f v wave_speed i j k.
Proof using Type.
  intros Hhom. unfold FV.flux_right, FV.flux_left, FV.reconstruct, F3.scale.
  destruct (Hhom a (f i j k) (f i (j - 1)%Z k) (f i (j + 1)%Z k))
    as (-> & -> & -> & -> & ->).
  split.
  - destruct (FV.last_point mesh i j); [destruct fixflux; ring|].
    destruct (Rgt_dec _ _); [ring|]. destruct (Rlt_dec _ _); ring.
  - destruct (FV.first_point mesh i j); [destruct fixflux; ring|].
    destruct (Rlt_dec _ _); [ring|]. destruct (Rgt_dec _ _); ring.
Qed.

(** X25.  The operator is homogeneous in the advected field.  With a
    limiter that commutes with scaling, multiplying [f] by a constant
    multiplies the result of the loops by the same constant in every
    cell, whatever the velocity, the wave speed and the boundary
    treatment. *)
Theorem flux_loops_homogeneous (a : BoutReal) (fixflux : bool)
    (f v wave_speed : Field3D) (i j k : Z) :
  limiter_homogeneous ->
  FV.flux_loops mesh coord fixflux (F3.scale a f) v wave_speed i j k
  = a * FV.flux_loops mesh coord fixflux f v wave_speed i j k.
Proof using Type.
  intros Hhom. rewrite !flux_loops_at.
  destruct (flux_scaled a fixflux f v wave_speed i j k Hhom) as [-> ->].
  destruct (flux_scaled a fixflux f v wave_speed i (j - 1) k Hhom) as [-> _].
  destruct (flux_scaled a fixflux f v wave_speed i (j + 1) k Hhom) as [_ ->].
  unfold when.
  repeat match goal with
    | |- context [if ?b then _ else _] => destruct b
    end; ring.
Qed.

End Homogeneity.

(** *** The default limiter commutes with scaling and reflection *)

Lemma same_sign (a b : BoutReal) :
  ~ a * b <= 0 -> (0 < a /\ 0 < b) \/ (a < 0 /\ b < 0).
Proof.
  intros H. destruct (Rlt_dec 0 a), (Rlt_dec 0 b), (Rlt_dec a 0), (Rlt_dec b 0);
    try (left; split; assumption); try (right; split; assumption);
    exfalso; apply H; nra.
Qed.

Lemma minmod_positive (a b c : BoutReal) : 0 < a -> 0 < b -> 0 < c ->
  minmod a b c = Rmin a (Rmin b c).
Proof.
  intros. unfold minmod, SIGN.
  destruct (Rle_dec (a * b) 0); [nra|]. destruct (Rle_dec (a * c) 0); [nra|].
  destruct (Rlt_dec a 0); [lra|].
  rewrite !Rabs_pos_eq by lra. ring.
Qed.

Lemma minmod_negative (a b c : BoutReal) : a < 0 -> b < 0 -> c < 0 ->
  minmod a b c = - Rmin (- a) (Rmin (- b) (- c)).
Proof.
  intros. unfold minmod, SIGN.
  destruct (Rle_dec (a * b) 0); [nra|]. destruct (Rle_dec (a * c) 0); [nra|].
  destruct (Rlt_dec a 0); [|lra].
  rewrite !Rabs_left by lra. ring.
Qed.

Lemma minmod_mixed (a b c : BoutReal) :
  a * b <= 0 \/ a * c <= 0 -> minmod a b c = 0.
Proof.
  intros H. unfold minmod.
  destruct (Rle_dec (a * b) 0); [reflexivity|].
  destruct (Rle_dec (a * c) 0); [reflexivity|]. lra.
Qed.

Lemma minmod_cases (a b c : BoutReal) :
  (0 < a /\ 0 < b /\ 0 < c) \/ (a < 0 /\ b < 0 /\ c < 0)
  \/ (a * b <= 0 \/ a * c <= 0).
Proof.
  destruct (Rle_dec (a * b) 0) as [|Hab]; [tauto|].
  destruct (Rle_dec (a * c) 0) as [|Hac]; [tauto|].
  destruct (same_sign _ _ Hab) as [[]|[]], (same_sign _ _ Hac) as [[]|[]];
    try lra; tauto.
Qed.

Lemma Rmin3_scale (s a b c : BoutReal) : 0 < s ->
  Rmin (s * a) (Rmin (s * b) (s * c)) = s * Rmin a (Rmin b c).
Proof.
  intros. unfold Rmin. repeat destruct (Rle_dec _ _); nra.
Qed.

Lemma Rmin3_rev (a b c : BoutReal) : Rmin c (Rmin b a) = Rmin a (Rmin b c).
Proof.
  unfold Rmin. repeat destruct (Rle_dec _ _); lra.
Qed.

Lemma minmod_opp (a b c : BoutReal) : minmod (- a) (- b) (- c) = - minmod a b c.
Proof.
  destruct (minmod_cases a b c) as [(?&?&?)|[(?&?&?)|Hm]].
  - rewrite (minmod_positive a b c), (minmod_negative (-a) (-b) (-c)) by lra.
    rewrite !Ropp_involutive. reflexivity.
  - rewrite (minmod_negative a b c), (minmod_positive (-a) (-b) (-c)) by lra.
    ring.
  - rewrite (minmod_mixed a b c) by assumption.
    rewrite minmod_mixed; [ring|]. destruct Hm; [left|right]; nra.
Qed.

Lemma minmod_rev (a b c : BoutReal) : minmod c b a = minmod a b c.
Proof.
  destruct (minmod_cases a b c) as [(?&?&?)|[(?&?&?)|Hm]].
  - rewrite !minmod_positive by lra. apply Rmin3_rev.
  - rewrite !minmod_negative by lra. f_equal. apply Rmin3_rev.
  - rewrite (minmod_mixed a b c) by assumption.
    destruct (minmod_cases c b a) as [(?&?&?)|[(?&?&?)|Hm']].
    + exfalso; destruct Hm; nra.
    + exfalso; destruct Hm; nra.
    + apply minmod_mixed; assumption.
Qed.

Lemma minmod_scale_pos (s a b c : BoutReal) : 0 < s ->
  minmod (s * a) (s * b) (s * c) = s * minmod a b c.
Proof.
  intros Hs.
  destruct (minmod_cases a b c) as [(?&?&?)|[(?&?&?)|Hm]].
  - rewrite !minmod_positive by nra. apply Rmin3_scale, Hs.
  - rewrite !minmod_negative by nra.
    replace (- (s * a)) with (s * - a) by ring.
    replace (- (s * b)) with (s * - b) by ring.
    replace (- (s * c)) with (s * - c) by ring.
    rewrite Rmin3_scale by assumption. ring.
  - rewrite (minmod_mixed a b c) by assumption.
    rewrite minmod_mixed; [ring|]. destruct Hm; [left|right]; nra.
Qed.

Lemma minmod_scale (s a b c : BoutReal) :
  minmod (s * a) (s * b) (s * c) = s * minmod a b c.
Proof.
  destruct (Rtotal_order s 0) as [Hs|[->|Hs]].
  - replace (s * a) with (- ((- s) * a)) by ring.
    replace (s * b) with (- ((- s) * b)) by ring.
    replace (s * c) with (- ((- s) * c)) by ring.
    rewrite minmod_opp, minmod_scale_pos by lra. ring.
  - rewrite minmod_mixed; [ring|]. left; lra.
  - apply minmod_scale_pos, Hs.
Qed.

Lemma MC_homogeneous : @limiter_homogeneous MC.
Proof.
  intros a c m p. unfold cellboundary, MC, Stencil1D.centred.
  cbn [Stencil1D.c Stencil1D.m Stencil1D.p Stencil1D.L Stencil1D.R].
  replace (2 * (a * p - a * c)) with (a * (2 * (p - c))) by ring.
  replace (0.5 * (a * p - a * m)) with (a * (0.5 * (p - m))) by ring.
  replace (2 * (a * c - a * m)) with (a * (2 * (c - m))) by ring.
  rewrite minmod_scale. repeat split; ring.
Qed.

Lemma MC_symmetric : @limiter_symmetric MC.
Proof.
  intros c m p. unfold cellboundary, MC, Stencil1D.centred.
  cbn [Stencil1D.c Stencil1D.m Stencil1D.p Stencil1D.L Stencil1D.R].
  replace (minmod (2 * (m - c)) (0.5 * (m - p)) (2 * (c - p)))
    with (- minmod (2 * (p - c)) (0.5 * (p - m)) (2 * (c - m))).
  2:{ rewrite <- (minmod_rev (2 * (p - c))), <- minmod_opp. f_equal; ring. }
  replace (minmod (2 * (- p - - c)) (0.5 * (- p - - m)) (2 * (- c - - m)))
    with (- minmod (2 * (p - c)) (0.5 * (p - m)) (2 * (c - m))).
  2:{ rewrite <- minmod_opp. f_equal; ring. }
  repeat split; ring.
Qed.

(** X25 with the default limiter on the sample column: three times the
    field gives three times the result. *)
Lemma flux_loops_homogeneous_witness :
  @limiter_homogeneous MC /\
  @FV.flux_loops MC sample_mesh sample_coord false
    (F3.scale 3 (F3.const 1)) (F3.const 1) (F3.const 1) 2%Z 3%Z 0%Z
  = 3 * @FV.flux_loops MC sample_mesh sample_coord false
          (F3.const 1) (F3.const 1) (F3.const 1) 2%Z 3%Z 0%Z.
Proof.
  split; [exact MC_homogeneous|].
  apply (@flux_loops_homogeneous MC sample_mesh sample_coord), MC_homogeneous.
Defined.

(** ** Reflection of the column *)

Section Mirror.

Context `{limiter : CellEdges}.
Variable mesh : Mesh.
Variable coord : Coordinates.

Lemma mirror_points i j :
  FV.last_point (mirror_mesh mesh) i (- j) = FV.first_point mesh i j /\
  FV.first_point (mirror_mesh mesh) i (- j) = FV.last_point mesh i j.
Proof using Type.
  unfold FV.last_point, FV.first_point, mirror_mesh.
  cbn [lastY firstY yend ystart periodicY].
  split; f_equal; f_equal.
  - destruct (Z.eqb_spec (- j) (- ystart mesh)), (Z.eqb_spec j (ystart mesh));
      first [reflexivity | lia].
  - destruct (Z.eqb_spec (- j) (- yend mesh)), (Z.eqb_spec j (yend mesh));
      first [reflexivity | lia].
Qed.

Lemma mirror_range i j :
  in_range (FV.ys (mirror_mesh mesh) i) (FV.ye (mirror_mesh mesh) i) (- j)
  = in_range (FV.ys mesh i) (FV.ye mesh i) j.
Proof using Type.
  unfold in_range, FV.ys, FV.ye, mirror_mesh.
  cbn [lastY firstY yend ystart periodicY].
  destruct (negb (lastY mesh i) || periodicY mesh i),
           (negb (firstY mesh i) || periodicY mesh i);
    repeat match goal with
      | |- context [(?a <=? ?b)%Z] => destruct (Z.leb_spec a b)
      end; first [reflexivity | lia].
Qed.

Lemma mirror_factors i j :
  FV.flux_factor_rc (mirror_coord coord) i (- j) = FV.flux_factor_lc coord i j /\
  FV.flux_factor_lc (mirror_coord coord) i (- j) = FV.flux_factor_rc coord i j /\
  FV.flux_factor_rp (mirror_coord coord) i (- j) = FV.flux_factor_lm coord i j /\
  FV.flux_factor_lm (mirror_coord coord) i (- j) = FV.flux_factor_rp coord i j.
Proof using Type.
  unfold FV.flux_factor_rc, FV.flux_factor_lc, FV.flux_factor_rp,
    FV.flux_factor_lm, FV.common_factor_r, FV.common_factor_l, mirror_coord.
  cbn [J g_22 dy].
  replace (- - j)%Z with j by lia.
  replace (- (- j + 1))%Z with (j - 1)%Z by lia.
  replace (- (- j - 1))%Z with (j + 1)%Z by lia.
  repeat split; reflexivity.
Qed.

Lemma flux_mirror fixflux (f v wave_speed : Field3D) i j k :
  limiter_symmetric ->
  FV.flux_right (mirror_mesh mesh) fixflux (mirror f) (mirror_velocity v)
    (mirror wave_speed) i (- j) k
  = FV.flux_left mesh fixflux f v wave_speed i j k /\
  FV.flux_left (mirror_mesh mesh) fixflux (mirror f) (mirror_velocity v)
    (mirror wave_speed) i (- j) k
  = FV.flux_right mesh fixflux f v wave_speed i j k.
Proof using Type.
  intros Hsym. unfold FV.flux_right, FV.flux_left, FV.reconstruct.
  destruct (mirror_points i j) as [-> ->].
  unfold mirror, mirror_velocity.
  replace (- - j)%Z with j by lia.
  replace (- (- j + 1))%Z with (j - 1)%Z by lia.
  replace (- (- j - 1))%Z with (j + 1)%Z by lia.
  destruct (Hsym (f i j k) (f i (j - 1)%Z k) (f i (j + 1)%Z k))
    as (-> & -> & -> & -> & -> & _ & _).
  destruct (Hsym (v i j k) (v i (j + 1)%Z k) (v i (j - 1)%Z k))
    as (_ & _ & _ & _ & _ & -> & ->).
  destruct (Hsym (v i j k) (v i (j - 1)%Z k) (v i (j + 1)%Z k))
    as (_ & _ & _ & -> & -> & _ & _).
  set (s := cellboundary (Stencil1D.centred (f i j k) (f i (j - 1)%Z k)
                                            (f i (j + 1)%Z k))).
  set (sv := cellboundary (Stencil1D.centred (v i j k) (v i (j - 1)%Z k)
                                             (v i (j + 1)%Z k))).
  set (amaxL := BOUTMAX (wave_speed i j k) (wave_speed i (j - 1)%Z k)).
  set (amaxR := BOUTMAX (wave_speed i j k) (wave_speed i (j + 1)%Z k)).
  split.
  - destruct (FV.first_point mesh i j); [destruct fixflux; ring|].
    repeat match goal with
      | |- context [Rgt_dec ?a ?b] => destruct (Rgt_dec a b)
      | |- context [Rlt_dec ?a ?b] => destruct (Rlt_dec a b)
      end; first [ring | exfalso; lra].
  - destruct (FV.last_point mesh i j); [destruct fixflux; ring|].
    repeat match goal with
      | |- context [Rgt_dec ?a ?b] => destruct (Rgt_dec a b)
      | |- context [Rlt_dec ?a ?b] => destruct (Rlt_dec a b)
      end; first [ring | exfalso; lra].
Qed.

(** X26.  The right-face and left-face halves of the loop body are mirror
    images of each other.  Reversing the y axis of the whole problem
    (mesh, metric, advected field and wave speed reflected, the velocity
    reflected and negated) reflects the result of the loops and changes
    its sign, for every cell, with either boundary treatment, whenever
    the limiter treats both directions alike. *)
Theorem flux_loops_mirror (fixflux : bool) (f v wave_speed : Field3D)
    (i j k : Z) :
  limiter_symmetric ->
  FV.flux_loops (mirror_mesh mesh) (mirror_coord coord) fixflux
    (mirror f) (mirror_velocity v) (mirror wave_speed) i (- j)%Z k
  = - FV.flux_loops mesh coord fixflux f v wave_speed i j k.
Proof using Type.
  intros Hsym. rewrite !flux_loops_at.
  replace (- j - 1)%Z with (- (j + 1))%Z by lia.
  replace (- j + 1)%Z with (- (j - 1))%Z by lia.
  rewrite !mirror_range.
  destruct (flux_mirror fixflux f v wave_speed i j k Hsym) as [-> ->].
  destruct (flux_mirror fixflux f v wave_speed i (j + 1) k Hsym) as [-> _].
  destruct (flux_mirror fixflux f v wave_speed i (j - 1) k Hsym) as [_ ->].
  destruct (mirror_factors i j) as (-> & -> & _ & _).
  destruct (mirror_factors i (j + 1)) as (_ & _ & -> & _).
  destruct (mirror_factors i (j - 1)) as (_ & _ & _ & ->).
  change (xstart (mirror_mesh mesh)) with (xstart mesh).
  change (xend (mirror_mesh mesh)) with (xend mesh).
  change (LocalNz (mirror_mesh mesh)) with (LocalNz mesh).
  unfold when.
  repeat match goal with
    | |- context [if ?b then _ else _] => destruct b
    end; ring.
Qed.

End Mirror.

(** X26 with the default limiter on the sample column. *)
Lemma flux_loops_mirror_witness :
  @limiter_symmetric MC /\
  @FV.flux_loops MC (mirror_mesh sample_mesh) (mirror_coord sample_coord) false
    (mirror (F3.const 1)) (mirror_velocity (F3.const 1)) (mirror (F3.const 1))
    2%Z (- 3)%Z 0%Z
  = - @FV.flux_loops MC sample_mesh sample_coord false
        (F3.const 1) (F3.const 1) (F3.const 1) 2%Z 3%Z 0%Z.
Proof.
  split; [exact MC_symmetric|].
  apply (@flux_loops_mirror MC sample_mesh sample_coord false
           (F3.const 1) (F3.const 1) (F3.const 1) 2 3 0), MC_symmetric.
Defined.
